(** * Image_Processing_Tools.py: configuration validation and strip interleaving

    A shallow embedding of [src/Image_Processing_Tools.py] and the properties
    its specification states about it.

    - Python exceptions are an error monad [result]; [try ... except C] is
      [try_except], which handles one exception class and lets every other
      class through.
    - Python [int] is [Z]; [//] and [%] are [Z.div] and [Z.modulo], which
      round the way Python does (floor, remainder with the sign of the
      divisor).
    - Python [float] is IEEE 754 binary64, taken from the Standard Library's
      executable specification [SpecFloat] with [prec = 53], [emax = 1024].
    - A NumPy image array is its list of rows together with the parts of its
      shape that the rows cannot carry (the width when there is no row, and
      the dimensions after the first two).
    - The collaborators the program only calls (YAML parsing, PIL decoding,
      the file system) are the two look-up functions of [Section Program]:
      an image file is there, with the array it decodes to, or opening the
      path is refused for a reason the file system gives; the configuration
      file is there, with the value it parses to, or it is missing
      (malformed YAML is not modelled).
    - Strings are strings of ASCII characters. *)

From Stdlib Require Import String Ascii.
From Stdlib Require Import ZArith List Bool Lia Permutation Sorted.
From Stdlib Require Import Floats.SpecFloat.
Import ListNotations.
Local Open Scope Z_scope.
Set Warnings "-register-all".

(* ===================================================================== *)
(** ** Python values and exceptions *)

(** What [yaml.safe_load] builds from the core YAML schema. *)
Inductive value : Type :=
| VNone
| VBool (b : bool)
| VInt (z : Z)
| VFloat (f : spec_float)
| VStr (s : string)
| VList (l : list value)
| VDict (d : list (value * value)).

Inductive exn_class : Type :=
| KeyError | ValueError | TypeError | FileNotFoundError
| OverflowError | ZeroDivisionError | IndexError | AttributeError
| IsADirectoryError | NotADirectoryError | PermissionError | OSError
| UnidentifiedImageError.

Definition exn_class_eqb (c d : exn_class) : bool :=
  match c, d with
  | KeyError, KeyError | ValueError, ValueError | TypeError, TypeError
  | FileNotFoundError, FileNotFoundError | OverflowError, OverflowError
  | ZeroDivisionError, ZeroDivisionError | IndexError, IndexError
  | AttributeError, AttributeError
  | IsADirectoryError, IsADirectoryError
  | NotADirectoryError, NotADirectoryError
  | PermissionError, PermissionError | OSError, OSError
  | UnidentifiedImageError, UnidentifiedImageError => true
  | _, _ => false
  end.

(** The text of an exception: the four messages the program formats itself,
    with the values it puts in them, and the ones the interpreter and the
    libraries choose. *)
Inductive message : Type :=
| by_library
| config_file_not_found (config_path : string)
| keys_missing
| step_not_an_integer (step_str : value)
| image_file_not_found (image_path : value)
| step_not_in_range (max_step_value step : Z).

Record exn : Type := Exn { class : exn_class; text : message }.

(** [except c] handles the exceptions of class [c]. None of the classes
    here is a subclass of one the program names in an [except]:
    [IsADirectoryError], [NotADirectoryError], [PermissionError] and
    [UnidentifiedImageError] stand beside [FileNotFoundError] under
    [OSError], not under it. *)
Definition isinstance (c : exn_class) (e : exn) : bool :=
  exn_class_eqb (class e) c.

Module Result.

Inductive result (E A : Type) : Type :=
| Ok (a : A)
| Raise (e : E).
Arguments Ok {E A} a.
Arguments Raise {E A} e.

Definition bind {E A B} (m : result E A) (k : A -> result E B) : result E B :=
  match m with
  | Ok a => k a
  | Raise e => Raise e
  end.

(** [try m except handles: h] *)
Definition try_except {E A} (m : result E A) (handles : E -> bool)
           (h : E -> result E A) : result E A :=
  match m with
  | Ok a => Ok a
  | Raise e => if handles e then h e else Raise e
  end.

End Result.
Import Result.

(** An exception raised by the interpreter or by a library. *)
Definition raise {A} (c : exn_class) : result exn A := Raise (Exn c by_library).

(** A computation that raises, if at all, with a text of the interpreter's
    or a library's. *)
Definition library_raise {T : Type} (m : result exn T) : Prop :=
  forall e, m = Raise e -> text e = by_library.

(** A computation that raises, if at all, an exception of one of the
    classes [cs]. *)
Definition raises_in {T : Type} (cs : list exn_class) (m : result exn T)
  : Prop :=
  forall e, m = Raise e -> In (class e) cs.

Notation "x <- m ;; k" := (bind m (fun x => k))
  (at level 61, m at next level, right associativity).
Notation "' p <- m ;; k" := (bind m (fun x => let p := x in k))
  (at level 61, p pattern, m at next level, right associativity).

(* ===================================================================== *)
(** ** Python sequences *)

Section Sequences.
Context {X : Type}.

(** Number of elements of [xs[:stop]] for a sequence of length [n]: a
    negative [stop] counts from the end, and both ends saturate. *)
Definition slice_stop (stop : Z) (n : nat) : nat :=
  if stop <? 0 then Z.to_nat (Z.of_nat n + stop)
  else Nat.min (Z.to_nat stop) n.

(** [xs[:stop]] *)
Definition slice_to (stop : Z) (xs : list X) : list X :=
  firstn (slice_stop stop (length xs)) xs.

(** [xs[mask]] for a boolean [mask] as long as [xs]: the elements whose
    mask entry is [True], in order. *)
Fixpoint compress (mask : list bool) (xs : list X) : list X :=
  match mask, xs with
  | b :: mask', x :: xs' =>
      if b then x :: compress mask' xs' else compress mask' xs'
  | _, _ => []
  end.

(** The elements of [xs] at the positions [idxs], in the order of [idxs]. *)
Definition gather (idxs : list nat) (xs : list X) : list X :=
  flat_map (fun i => match nth_error xs i with
                     | Some x => [x]
                     | None => []
                     end) idxs.

(** Row-wise concatenation of two lists of rows. *)
Fixpoint zip_app (l1 l2 : list (list X)) : list (list X) :=
  match l1, l2 with
  | r1 :: l1', r2 :: l2' => (r1 ++ r2) :: zip_app l1' l2'
  | _, _ => []
  end.

End Sequences.

(** [np.arange(n)] *)
Definition arange (n : nat) : list Z := map Z.of_nat (seq 0 n).

Definition count_true (mask : list bool) : nat :=
  length (filter (fun b => b) mask).

(* ===================================================================== *)
(** ** NumPy arrays of pixels *)

(** The two axes [cut_image] is documented for:
    "0 for horizontal, 1 for vertical". *)
Inductive axis : Type :=
| ROWS      (* axis = 0 *)
| COLUMNS.  (* axis = 1 *)

Section Arrays.
(** One pixel: a scalar for a greyscale image, the vector of its channel
    samples for a colour image. No operation of the program looks inside. *)
Context {A : Type}.

Record ndarray : Type := mk_ndarray {
  ncols : nat;               (* shape[1] *)
  trailing : list nat;       (* shape[2:]: [] or [channels] *)
  rows : list (list A)       (* shape[0] rows of shape[1] pixels *)
}.

Definition nrows (a : ndarray) : nat := length (rows a).

Definition shape (a : ndarray) : list nat :=
  nrows a :: ncols a :: trailing a.

(** [image.shape[axis]] *)
Definition extent (ax : axis) (a : ndarray) : nat :=
  match ax with ROWS => nrows a | COLUMNS => ncols a end.

(** Every row has [shape[1]] pixels. *)
Definition wf (a : ndarray) : Prop :=
  Forall (fun r => length r = ncols a) (rows a).

Definition pixel (a : ndarray) (i j : nat) : option A :=
  match nth_error (rows a) i with
  | Some r => nth_error r j
  | None => None
  end.

(** All pixels in row-major order. *)
Definition pixels (a : ndarray) : list A := concat (rows a).

(** [a.size] divided by the channel depth: the number of pixels. *)
Definition pixel_count (a : ndarray) : nat := nrows a * ncols a.

(** [image[:h, :w]] *)
Definition slice2 (h w : Z) (image : ndarray) : ndarray :=
  {| ncols := slice_stop w (ncols image);
     trailing := trailing image;
     rows := map (slice_to w) (slice_to h (rows image)) |}.

(** [image[mask]]: NumPy raises IndexError when the boolean index does not
    have the length of the indexed axis. *)
Definition mask_rows (image : ndarray) (mask : list bool)
  : result exn ndarray :=
  if Nat.eqb (length mask) (nrows image)
  then Ok {| ncols := ncols image;
             trailing := trailing image;
             rows := compress mask (rows image) |}
  else raise IndexError.

(** [image[:, mask]] *)
Definition mask_cols (image : ndarray) (mask : list bool)
  : result exn ndarray :=
  if Nat.eqb (length mask) (ncols image)
  then Ok {| ncols := count_true mask;
             trailing := trailing image;
             rows := map (compress mask) (rows image) |}
  else raise IndexError.

(** [np.concatenate([a, b], axis)] for two arrays: every dimension but the
    one of [axis] has to agree, else ValueError. *)
Definition concatenate2 (ax : axis) (a b : ndarray)
  : result exn ndarray :=
  if negb (if list_eq_dec Nat.eq_dec (trailing a) (trailing b)
           then true else false)
  then raise ValueError
  else
    match ax with
    | ROWS =>
        if Nat.eqb (ncols a) (ncols b)
        then Ok {| ncols := ncols a;
                   trailing := trailing a;
                   rows := rows a ++ rows b |}
        else raise ValueError
    | COLUMNS =>
        if Nat.eqb (nrows a) (nrows b)
        then Ok {| ncols := (ncols a + ncols b)%nat;
                   trailing := trailing a;
                   rows := zip_app (rows a) (rows b) |}
        else raise ValueError
    end.

(** [np.concatenate(arrays, axis)]; an empty sequence is a ValueError. *)
Definition concatenate (arrays : list ndarray) (ax : axis)
  : result exn ndarray :=
  match arrays with
  | [] => raise ValueError
  | a :: rest =>
      fold_left (fun acc b => c <- acc ;; concatenate2 ax c b) rest (Ok a)
  end.

(** A PIL image holds its pixel buffer: [Image.fromarray(a)] wraps it and
    [np.array(image)] gives it back. The buffers of the program all come
    from a decoded image, and the conversion is taken to lose nothing and
    to refuse none of them. *)
Record Image : Type := fromarray { np_array : ndarray }.

(** [image.size] is (width, height). *)
Definition size (im : Image) : Z * Z :=
  (Z.of_nat (ncols (np_array im)), Z.of_nat (nrows (np_array im))).

End Arrays.
Arguments ndarray A : clear implicits.
Arguments Image A : clear implicits.

(* ===================================================================== *)
(** ** Built-in conversions *)

(** Python's [a // b] on [int]. *)
Definition floordiv (a b : Z) : result exn Z :=
  if b =? 0 then raise ZeroDivisionError else Ok (a / b).

(** binary64 *)
Definition prec : Z := 53.
Definition emax : Z := 1024.

(** The literal [0.02]: the double nearest to 1/50, a little above it. *)
Definition float_0_02 : spec_float := S754_finite false 5764607523034235 (-58).

(** Conversion of the [int] operand of [int * float], correctly rounded;
    an [int] beyond the range of a double is an OverflowError. *)
Definition float_of_int (n : Z) : result exn spec_float :=
  match binary_normalize prec emax n 0 false with
  | S754_infinity _ => raise OverflowError
  | f => Ok f
  end.

Definition float_mul (x y : spec_float) : spec_float := SFmul prec emax x y.

(** [int(f)] for a float: the integer part, towards zero. *)
Definition int_of_float (f : spec_float) : result exn Z :=
  match f with
  | S754_zero _ => Ok 0
  | S754_infinity _ => raise OverflowError
  | S754_nan => raise ValueError
  | S754_finite s m e =>
      let magnitude := Z.shiftl (Zpos m) e in
      Ok (if s then - magnitude else magnitude)
  end.

(** [int(s)] for a string of ASCII characters, base 10: blanks around, one
    optional sign, then digits with single underscores between them. *)
Definition is_space (c : ascii) : bool :=
  let n := nat_of_ascii c in
  ((9 <=? n) && (n <=? 13) || (n =? 32))%nat.

Definition digit_of (c : ascii) : option Z :=
  let n := Z.of_nat (nat_of_ascii c) in
  if (48 <=? n) && (n <=? 57) then Some (n - 48) else None.

Fixpoint lstrip (s : string) : string :=
  match s with
  | String c s' => if is_space c then lstrip s' else s
  | EmptyString => s
  end.

Fixpoint all_space (s : string) : bool :=
  match s with
  | String c s' => is_space c && all_space s'
  | EmptyString => true
  end.

(** The digits after a first digit of value [acc]; what follows them is
    returned with the number. *)
Fixpoint scan_digits (acc : Z) (s : string) : option (Z * string) :=
  match s with
  | EmptyString => Some (acc, s)
  | String c s' =>
      match digit_of c with
      | Some d => scan_digits (10 * acc + d) s'
      | None =>
          if Ascii.eqb c "_" then
            match s' with
            | String c' s'' =>
                match digit_of c' with
                | Some d => scan_digits (10 * acc + d) s''
                | None => None
                end
            | EmptyString => None
            end
          else Some (acc, s)
      end
  end.

Definition int_of_str (s : string) : option Z :=
  let s := lstrip s in
  let '(negative, s) :=
    match s with
    | String c s' =>
        if Ascii.eqb c "-" then (true, s')
        else if Ascii.eqb c "+" then (false, s')
        else (false, s)
    | EmptyString => (false, s)
    end in
  match s with
  | String c s' =>
      match digit_of c with
      | Some d =>
          match scan_digits d s' with
          | Some (n, rest) =>
              if all_space rest then Some (if negative then - n else n)
              else None
          | None => None
          end
      | None => None
      end
  | EmptyString => None
  end.

(** [int(x)] *)
Definition int (x : value) : result exn Z :=
  match x with
  | VInt z => Ok z
  | VBool b => Ok (if b then 1 else 0)
  | VFloat f => int_of_float f
  | VStr s =>
      match int_of_str s with
      | Some z => Ok z
      | None => raise ValueError
      end
  | VNone | VList _ | VDict _ => raise TypeError
  end.

(** [d[key]] on the items of a dict, for a [str] key: only a [str] key is
    equal to it. *)
Fixpoint dict_get (d : list (value * value)) (key : string) : option value :=
  match d with
  | [] => None
  | (VStr k, v) :: d' => if String.eqb k key then Some v else dict_get d' key
  | _ :: d' => dict_get d' key
  end.

(** [obj[key]] for a [str] key: a KeyError on a dict without the key, a
    TypeError on everything that is not a dict (None and numbers are not
    subscriptable, [str] and [list] take integer indices only). *)
Definition getitem (obj : value) (key : string) : result exn value :=
  match obj with
  | VDict d =>
      match dict_get d key with
      | Some v => Ok v
      | None => raise KeyError
      end
  | _ => raise TypeError
  end.

(* ===================================================================== *)
(** ** The file system *)

(** Why [Image.open] gets no image from a path: what [open] reports
    (nothing under that name, a directory, a path through a regular file,
    no permission, another error of the operating system) or a file that
    PIL identifies as no image. *)
Inductive refusal : Type :=
| no_such_file
| is_a_directory
| not_a_directory
| permission_denied
| other_os_error
| not_an_image.

Definition refusal_class (r : refusal) : exn_class :=
  match r with
  | no_such_file => FileNotFoundError
  | is_a_directory => IsADirectoryError
  | not_a_directory => NotADirectoryError
  | permission_denied => PermissionError
  | other_os_error => OSError
  | not_an_image => UnidentifiedImageError
  end.

(** What is under a path: an image file, with the array PIL decodes it to,
    or no image, with the reason. *)
Inductive entry (A : Type) : Type :=
| an_image (a : ndarray A)
| no_image (r : refusal).
Arguments an_image {A} a.
Arguments no_image {A} r.

(** The same entry with something else in place of the array. *)
Definition entry_map {A B : Type} (f : ndarray A -> B) (x : entry A)
  : B + refusal :=
  match x with
  | an_image a => inl (f a)
  | no_image r => inr r
  end.

(** A path with a NUL character in it: [open] refuses it with a ValueError
    ("embedded null byte") before it asks the file system, and no file
    system has an entry under such a name. *)
Fixpoint has_nul (path : string) : bool :=
  match path with
  | EmptyString => false
  | String c path' => Ascii.eqb c Ascii.zero || has_nul path'
  end.

(* ===================================================================== *)
(** ** The program *)

Section Program.
Context {A : Type}.

(** What there is under each path when an image is opened. *)
Variable image_files : string -> entry A.

(** The configuration files there are, by path, each with the value
    [yaml.safe_load] reads from it. *)
Variable config_files : string -> option value.

(** [Image.open(fp)]: anything but a path is taken for a file object and
    has none of its methods; a path gives its image, or [open]'s ValueError
    for an embedded NUL, or the exception of the reason there is no
    image. *)
Definition Image_open (fp : value) : result exn (Image A) :=
  match fp with
  | VStr path =>
      match image_files path with
      | an_image a => Ok (fromarray a)
      | no_image r =>
          if has_nul path then raise ValueError
          else raise (refusal_class r)
      end
  | _ => raise AttributeError
  end.

(** *** [class ConfigLoader] *)

Definition load_config (config_path : string) : result exn value :=
  try_except
    match config_files config_path with
    | Some config => Ok config
    | None => raise FileNotFoundError
    end
    (isinstance FileNotFoundError)
    (fun _ => Raise (Exn FileNotFoundError (config_file_not_found config_path))).

Definition validate_config (config : value) : result exn (value * Z) :=
  '(image_path, step_str) <-
    try_except
      (numpy_basics <- getitem config "numpy_basics" ;;
       image_path <- getitem numpy_basics "image_path" ;;
       numpy_basics <- getitem config "numpy_basics" ;;
       step_str <- getitem numpy_basics "step" ;;
       Ok (image_path, step_str))
      (isinstance KeyError)
      (fun _ => Raise (Exn ValueError keys_missing)) ;;
  step <-
    try_except (int step_str)
      (isinstance ValueError)
      (fun _ => Raise (Exn ValueError (step_not_an_integer step_str))) ;;
  max_step_value <-
    try_except
      (image <- Image_open image_path ;;
       let '(width, height) := size image in
       x <- float_of_int (Z.max width height) ;;
       int (VFloat (float_mul x float_0_02)))
      (isinstance FileNotFoundError)
      (fun _ => Raise (Exn FileNotFoundError (image_file_not_found image_path))) ;;
  if (step <? 1) || (step >? max_step_value)
  then Raise (Exn ValueError (step_not_in_range max_step_value step))
  else Ok (image_path, step).

(** *** [class ImageProcessor] *)

Section ImageProcessor.
Variable step : Z.            (* self.step *)

Definition adjust_image_size (image : ndarray A)
  : result exn (ndarray A) :=
  let h := Z.of_nat (nrows image) in
  let w := Z.of_nat (ncols image) in
  q <- floordiv w step ;;
  let w := q * step in
  q <- floordiv h step ;;
  let h := q * step in
  Ok (slice2 h w image).

(** [np.arange(n) // self.step % 2 == 0]. NumPy divides in int64, which
    is the division of [Z] for every step an int64 holds. *)
Definition band_mask (n : nat) : list bool :=
  map (fun i => (i / step) mod 2 =? 0) (arange n).

Definition cut_image (image : ndarray A) (ax : axis)
  : result exn (Image A) :=
  image <- adjust_image_size image ;;
  let mask := band_mask (extent ax image) in
  image_np_1 <- match ax with
                | ROWS => mask_rows image mask
                | COLUMNS => mask_cols image mask
                end ;;
  image_np_2 <- match ax with
                | ROWS => mask_rows image (map negb mask)
                | COLUMNS => mask_cols image (map negb mask)
                end ;;
  result_image <- concatenate [image_np_1; image_np_2] ax ;;
  Ok (fromarray result_image).

Definition process_image (image_path : value) : result exn (Image A) :=
  image <-
    try_except (Image_open image_path)
      (isinstance FileNotFoundError)
      (fun _ => Raise (Exn FileNotFoundError (image_file_not_found image_path))) ;;
  image_np <- adjust_image_size (np_array image) ;;
  let image := fromarray image_np in
  vertical_image <- cut_image image_np COLUMNS ;;
  horizontal_image <- cut_image (np_array vertical_image) ROWS ;;
  all_images <-
    concatenate [np_array image; np_array vertical_image;
                 np_array horizontal_image] ROWS ;;
  Ok (fromarray all_images).

End ImageProcessor.

(** *** [main] *)

(** [image.show()]: the image is saved for the viewer, and an image without
    a pixel cannot be saved (ValueError, "cannot write empty image"). *)
Definition show (image : Image A) : result exn unit :=
  let '(width, height) := size image in
  if (width =? 0) || (height =? 0) then raise ValueError else Ok tt.

(** How a run of [main] ends: the composite is shown, the handler prints
    the exception, or the exception leaves [main]. *)
Inductive outcome : Type :=
| shown (all_images : Image A)
| printed (e : exn)
| uncaught (e : exn).

Definition main : outcome :=
  let config_path := "config.yaml"%string in
  match
    config <- load_config config_path ;;
    ' (image_path, step) <- validate_config config ;;
    all_images <- process_image step image_path ;;
    _ <- show all_images ;;
    Ok all_images
  with
  | Ok all_images => shown all_images
  | Raise e =>
      if isinstance FileNotFoundError e || isinstance ValueError e
      then printed e
      else uncaught e
  end.

End Program.

(* ===================================================================== *)
(** ** The specification's view of interleaving *)

(** Position [i] along the axis lies in an even band:
    [(i // step) % 2 == 0]. *)
Definition even_band (step : Z) (i : nat) : bool :=
  (Z.of_nat i / step) mod 2 =? 0.

(** The positions of the even bands and of the odd bands among the first
    [n], each in the original order. *)
Definition even_group (step : Z) (n : nat) : list nat :=
  filter (even_band step) (seq 0 n).

Definition odd_group (step : Z) (n : nat) : list nat :=
  filter (fun i => negb (even_band step i)) (seq 0 n).

(** The stable partition: even group first, odd group after it. *)
Definition interleave_order (step : Z) (n : nat) : list nat :=
  even_group step n ++ odd_group step n.

(** The buffer made of the rows (or of the columns) of [a] at the positions
    [idxs], in the order of [idxs]. *)
Definition select_along {A : Type} (ax : axis) (idxs : list nat)
           (a : ndarray A) : ndarray A :=
  match ax with
  | ROWS => {| ncols := ncols a;
               trailing := trailing a;
               rows := gather idxs (rows a) |}
  | COLUMNS => {| ncols := length idxs;
                  trailing := trailing a;
                  rows := map (gather idxs) (rows a) |}
  end.

(** Where the pixel at row [i], column [j] of the selected buffer comes
    from. *)
Definition source (ax : axis) (order : list nat) (i j : nat)
  : option (nat * nat) :=
  match ax with
  | ROWS => option_map (fun i' => (i', j)) (nth_error order i)
  | COLUMNS => option_map (fun j' => (i, j')) (nth_error order j)
  end.

(** An aligned buffer: its height and width are multiples of [step]. *)
Definition aligned {A : Type} (step : Z) (a : ndarray A) : Prop :=
  (step | Z.of_nat (nrows a)) /\ (step | Z.of_nat (ncols a)).

Definition other (ax : axis) : axis :=
  match ax with ROWS => COLUMNS | COLUMNS => ROWS end.

(* ===================================================================== *)
(** ** The specification's view of validation *)

(** [floor(0.02 * max(width, height))], with 0.02 the exact two hundredths. *)
Definition max_step (width height : Z) : Z := 2 * Z.max width height / 100.

(** The four typed failures of the specification's error taxonomy, and the
    exception of the program each one stands for. *)
Inductive failure : Type :=
| ConfigNotFound | InvalidConfig | ImageNotFound | StepOutOfRange.

Definition failure_kind (e : exn) : option failure :=
  match class e, text e with
  | FileNotFoundError, config_file_not_found _ => Some ConfigNotFound
  | ValueError, keys_missing => Some InvalidConfig
  | ValueError, step_not_an_integer _ => Some InvalidConfig
  | FileNotFoundError, image_file_not_found _ => Some ImageNotFound
  | ValueError, step_not_in_range _ _ => Some StepOutOfRange
  | _, _ => None
  end.

(** The third step of [validate_config] on its own: the bound the image at
    [image_path] gives, or the exception that step ends with. *)
Definition bound_of {A : Type} (image_files : string -> entry A)
           (image_path : value) : result exn Z :=
  try_except
    (image <- Image_open image_files image_path ;;
     let '(width, height) := size image in
     x <- float_of_int (Z.max width height) ;;
     int (VFloat (float_mul x float_0_02)))
    (isinstance FileNotFoundError)
    (fun _ => Raise (Exn FileNotFoundError (image_file_not_found image_path))).

(** The classes of exception [validate_config] can end with. *)
Definition validate_classes : list exn_class :=
  [ValueError; TypeError; OverflowError; FileNotFoundError; AttributeError;
   IsADirectoryError; NotADirectoryError; PermissionError; OSError;
   UnidentifiedImageError].

(** The configuration
    [{numpy_basics: {image_path: image_path, step: step}}]. *)
Definition make_config (image_path step : value) : value :=
  VDict [(VStr "numpy_basics",
          VDict [(VStr "image_path", image_path); (VStr "step", step)])].

(** The literal [2.5]. *)
Definition float_2_5 : spec_float := S754_finite false 5629499534213120 (-51).

(* ===================================================================== *)
(** ** Concrete buffers *)

(** Greyscale buffers of 3 x 3, 2 x 3 and 4 x 6 pixels. *)
Definition buffer_3x3 : ndarray Z :=
  {| ncols := 3; trailing := [];
     rows := [[1; 2; 3]; [4; 5; 6]; [7; 8; 9]] |}.

Definition buffer_2x3 : ndarray Z :=
  {| ncols := 3; trailing := [];
     rows := [[1; 2; 3]; [4; 5; 6]] |}.

Definition buffer_4x6 : ndarray Z :=
  {| ncols := 6; trailing := [];
     rows := [[11; 12; 13; 14; 15; 16]; [21; 22; 23; 24; 25; 26];
              [31; 32; 33; 34; 35; 36]; [41; 42; 43; 44; 45; 46]] |}.

(** A greyscale image 1000 pixels wide and 10 pixels high. *)
Definition buffer_10x1000 : ndarray Z :=
  {| ncols := 1000; trailing := []; rows := repeat (repeat 0 1000%nat) 10%nat |}.

(* ===================================================================== *)
(** * Properties *)

(** ** Sequences *)

Section SequenceFacts.
Context {X : Type}.
Implicit Types (xs : list X) (mask : list bool) (p : nat -> bool).

Lemma slice_stop_nonneg (stop : Z) (n : nat) :
  0 <= stop -> slice_stop stop n = Nat.min (Z.to_nat stop) n.
Proof.
  intros H. unfold slice_stop.
  destruct (Z.ltb_spec stop 0); [lia | reflexivity].
Qed.

Lemma gather_shift (idxs : list nat) (x : X) xs :
  gather (map S idxs) (x :: xs) = gather idxs xs.
Proof.
  unfold gather. induction idxs as [|i idxs IH]; simpl; [reflexivity|].
  now rewrite IH.
Qed.

Lemma gather_app (i1 i2 : list nat) xs :
  gather (i1 ++ i2) xs = gather i1 xs ++ gather i2 xs.
Proof. unfold gather. apply flat_map_app. Qed.

Lemma filter_seq_shift p (n : nat) :
  filter p (seq 1 n) = map S (filter (fun i => p (S i)) (seq 0 n)).
Proof.
  rewrite <- seq_shift.
  induction (seq 0 n) as [|i l IH]; simpl; [reflexivity|].
  rewrite IH. now destruct (p (S i)).
Qed.

(** Indexing with the boolean mask of a predicate picks the positions
    that satisfy it, in increasing order. *)
Lemma compress_gather xs : forall p,
  compress (map p (seq 0 (length xs))) xs
  = gather (filter p (seq 0 (length xs))) xs.
Proof.
  induction xs as [|x xs IH]; intros p; [reflexivity|].
  cbn [length seq map compress filter].
  rewrite <- seq_shift, map_map, (IH (fun i => p (S i))).
  rewrite seq_shift, filter_seq_shift.
  destruct (p 0%nat).
  - change (gather (0%nat :: ?l) (x :: xs)) with (x :: gather l (x :: xs)).
    now rewrite gather_shift.
  - now rewrite gather_shift.
Qed.

Lemma length_compress mask : forall xs,
  length mask = length xs -> length (compress mask xs) = count_true mask.
Proof.
  unfold count_true.
  induction mask as [|b mask IH]; intros [|x xs] H; try discriminate;
    [reflexivity|].
  simpl in *. destruct b; simpl; rewrite IH by lia; reflexivity.
Qed.

Lemma zip_app_map {Y : Type} (f g : Y -> list X) (l : list Y) :
  zip_app (map f l) (map g l) = map (fun r => f r ++ g r) l.
Proof. induction l as [|r l IH]; simpl; [reflexivity | now rewrite IH]. Qed.

Lemma length_zip_app (l1 l2 : list (list X)) :
  length l1 = length l2 -> length (zip_app l1 l2) = length l1.
Proof.
  revert l2. induction l1 as [|r l1 IH]; intros [|r2 l2] H;
    try discriminate; [reflexivity|].
  simpl in *. now rewrite IH by lia.
Qed.

(** A permutation of the positions of [xs] gathers a permutation of
    [xs]. *)
Lemma gather_seq_all xs : gather (seq 0 (length xs)) xs = xs.
Proof.
  induction xs as [|x xs IH]; [reflexivity|].
  cbn [length seq]. rewrite <- seq_shift.
  change (gather (0%nat :: ?l) (x :: xs)) with (x :: gather l (x :: xs)).
  now rewrite gather_shift, IH.
Qed.

Lemma gather_Permutation (i1 i2 : list nat) xs :
  Permutation i1 i2 -> Permutation (gather i1 xs) (gather i2 xs).
Proof.
  intros H. unfold gather. induction H; simpl.
  - constructor.
  - now apply Permutation_app_head.
  - rewrite !app_assoc. apply Permutation_app_tail, Permutation_app_comm.
  - etransitivity; eassumption.
Qed.

Lemma nth_error_gather (idxs : list nat) xs (j : nat) :
  Forall (fun i => (i < length xs)%nat) idxs ->
  nth_error (gather idxs xs) j
  = match nth_error idxs j with
    | Some i => nth_error xs i
    | None => None
    end.
Proof.
  unfold gather. intros H. revert j.
  induction H as [|i idxs Hi _ IH]; intros j.
  - now destruct j.
  - cbn [flat_map]. destruct (nth_error xs i) as [x|] eqn:Ex.
    2:{ apply nth_error_None in Ex. lia. }
    destruct j as [|j]; cbn [app nth_error]; [now symmetry | apply IH].
Qed.

End SequenceFacts.

(** The two groups of a partition hold every element once. *)
Lemma filter_partition_Permutation {X : Type} (p : X -> bool) (l : list X) :
  Permutation (filter p l ++ filter (fun x => negb (p x)) l) l.
Proof.
  induction l as [|x l IH]; simpl; [constructor|].
  destruct (p x); simpl.
  - now constructor.
  - symmetry. apply Permutation_cons_app. now symmetry.
Qed.

Lemma seq_Sorted (n s : nat) : Sorted lt (seq s n).
Proof.
  revert s. induction n as [|n IH]; intros s; simpl; constructor.
  - apply IH.
  - destruct n; simpl; constructor. lia.
Qed.

(** Filtering keeps the order: a sub-list of an increasing list is
    increasing. *)
Lemma filter_Sorted_lt (p : nat -> bool) (l : list nat) :
  Sorted lt l -> Sorted lt (filter p l).
Proof.
  intros H. apply Sorted_StronglySorted in H; [|intros x y z; lia].
  apply StronglySorted_Sorted.
  induction H as [|x l Hl IH Hx]; simpl; [constructor|].
  destruct (p x); [|exact IH].
  constructor; [exact IH|].
  rewrite Forall_forall in *. intros y Hy.
  apply filter_In in Hy. now apply Hx.
Qed.

Lemma count_true_map {X : Type} (p : X -> bool) (l : list X) :
  count_true (map p l) = length (filter p l).
Proof.
  unfold count_true. induction l as [|x l IH]; simpl; [reflexivity|].
  destruct (p x); simpl; now rewrite IH.
Qed.

Lemma floor_multiple_bounds (n step : Z) :
  1 <= step -> 0 <= n ->
  0 <= n / step * step <= n /\ n - step < n / step * step.
Proof.
  intros Hs Hn.
  pose proof (Z.div_mod n step ltac:(lia)) as E.
  pose proof (Z.mod_pos_bound n step ltac:(lia)) as B.
  pose proof (Z.div_pos n step Hn ltac:(lia)) as P.
  nia.
Qed.

Lemma slice_stop_floor (n : nat) (step : Z) :
  1 <= step ->
  Z.of_nat (slice_stop (Z.of_nat n / step * step) n)
  = Z.of_nat n / step * step.
Proof.
  intros Hs.
  destruct (floor_multiple_bounds (Z.of_nat n) step Hs ltac:(lia)) as [B _].
  rewrite slice_stop_nonneg by lia. lia.
Qed.

(** ** [adjust_image_size] *)

Lemma In_firstn {X : Type} (n : nat) (l : list X) (x : X) :
  In x (firstn n l) -> In x l.
Proof.
  intros H. rewrite <- (firstn_skipn n l). apply in_or_app. now left.
Qed.

Section AdjustFacts.
Context {A : Type}.
Implicit Types (a image : ndarray A).

Lemma adjust_image_size_eq (step : Z) a :
  step <> 0 ->
  adjust_image_size step a
  = Ok (slice2 (Z.of_nat (nrows a) / step * step)
               (Z.of_nat (ncols a) / step * step) a).
Proof.
  intros H. unfold adjust_image_size, floordiv.
  destruct (Z.eqb_spec step 0); [contradiction | reflexivity].
Qed.

Lemma nrows_slice2 (h w : Z) a :
  nrows (slice2 h w a) = slice_stop h (nrows a).
Proof.
  unfold nrows, slice2, slice_to. cbn [rows].
  rewrite length_map, length_firstn.
  unfold slice_stop. destruct (Z.ltb_spec h 0); lia.
Qed.

Lemma wf_slice2 (h w : Z) a : wf a -> wf (slice2 h w a).
Proof.
  unfold wf, slice2. cbn [rows ncols]. intros H.
  rewrite Forall_forall in *. intros r' Hr'.
  apply in_map_iff in Hr' as (r & <- & Hr).
  unfold slice_to at 1 in Hr. apply In_firstn in Hr.
  unfold slice_to. rewrite length_firstn, (H r Hr).
  unfold slice_stop. destruct (Z.ltb_spec w 0); lia.
Qed.

Lemma pixel_slice2 (h w : Z) a (i j : nat) :
  wf a ->
  (i < slice_stop h (nrows a))%nat -> (j < slice_stop w (ncols a))%nat ->
  exists p, pixel (slice2 h w a) i j = Some p /\ pixel a i j = Some p.
Proof.
  intros Hwf Hi Hj. unfold pixel, slice2. cbn [rows].
  rewrite nth_error_map. unfold slice_to at 2.
  rewrite nth_error_firstn.
  fold (nrows a). destruct (Nat.ltb_spec i (slice_stop h (nrows a))); [|lia].
  assert (Hin : (i < length (rows a))%nat).
  { fold (nrows a). revert Hi. unfold slice_stop.
    destruct (Z.ltb_spec h 0); lia. }
  destruct (nth_error (rows a) i) as [r|] eqn:Er.
  2:{ apply nth_error_None in Er. lia. }
  cbn [option_map]. unfold slice_to. rewrite nth_error_firstn.
  assert (Hr : length r = ncols a).
  { unfold wf in Hwf. rewrite Forall_forall in Hwf.
    eapply Hwf, nth_error_In, Er. }
  rewrite Hr.
  destruct (Nat.ltb_spec j (slice_stop w (ncols a))); [|lia].
  destruct (nth_error r j) as [p|] eqn:Ep.
  - now exists p.
  - apply nth_error_None in Ep. revert Hj. unfold slice_stop.
    destruct (Z.ltb_spec w 0); lia.
Qed.

(** C3. For a step of at least 1, [adjust_image_size] returns the top-left
    crop of the buffer whose height and width are [(h // step) * step] and
    [(w // step) * step]: both are multiples of [step], at most the
    original extent and more than the original extent minus [step]; every
    pixel kept is the input's pixel at the same coordinates, and the
    dimensions after the first two are the input's. *)
Theorem adjust_image_size_crop (step : Z) a :
  1 <= step -> wf a ->
  let h := Z.of_nat (nrows a) in
  let w := Z.of_nat (ncols a) in
  exists a',
    adjust_image_size step a = Ok a' /\
    wf a' /\
    Z.of_nat (nrows a') = h / step * step /\
    Z.of_nat (ncols a') = w / step * step /\
    (step | Z.of_nat (nrows a')) /\ (step | Z.of_nat (ncols a')) /\
    h - step < Z.of_nat (nrows a') <= h /\
    w - step < Z.of_nat (ncols a') <= w /\
    rows a' = map (firstn (ncols a')) (firstn (nrows a') (rows a)) /\
    (forall i j, (i < nrows a')%nat -> (j < ncols a')%nat ->
                 exists p, pixel a' i j = Some p /\ pixel a i j = Some p) /\
    trailing a' = trailing a.
Proof.
  intros Hs Hwf h w.
  exists (slice2 (h / step * step) (w / step * step) a).
  pose proof (floor_multiple_bounds h step Hs ltac:(lia)) as Bh.
  pose proof (floor_multiple_bounds w step Hs ltac:(lia)) as Bw.
  assert (Eh : Z.of_nat (nrows (slice2 (h / step * step) (w / step * step) a))
               = h / step * step).
  { rewrite nrows_slice2. apply slice_stop_floor, Hs. }
  assert (Ew : Z.of_nat (ncols (slice2 (h / step * step) (w / step * step) a))
               = w / step * step).
  { cbn [slice2 ncols]. apply slice_stop_floor, Hs. }
  split; [apply adjust_image_size_eq; lia|].
  split; [apply wf_slice2, Hwf|].
  split; [exact Eh|]. split; [exact Ew|].
  split; [rewrite Eh; apply Z.divide_factor_r|].
  split; [rewrite Ew; apply Z.divide_factor_r|].
  split; [lia|]. split; [lia|].
  split.
  { rewrite nrows_slice2. cbn [slice2 rows ncols].
    unfold slice_to at 2. fold (nrows a).
    apply map_ext_in. intros r Hr. unfold slice_to.
    apply In_firstn in Hr.
    unfold wf in Hwf. rewrite Forall_forall in Hwf.
    now rewrite (Hwf r Hr). }
  split; [|reflexivity].
  intros i j Hi Hj. apply pixel_slice2; [exact Hwf| |].
  - now rewrite nrows_slice2 in Hi.
  - exact Hj.
Qed.
End AdjustFacts.

(** ** [cut_image] *)

Lemma band_mask_even_band (step : Z) (n : nat) :
  band_mask step n = map (even_band step) (seq 0 n).
Proof. unfold band_mask, arange. now rewrite map_map. Qed.

Lemma In_even_group (step : Z) (n i : nat) :
  In i (even_group step n) <-> (i < n)%nat /\ (Z.of_nat i / step) mod 2 = 0.
Proof.
  unfold even_group, even_band. rewrite filter_In, in_seq, Z.eqb_eq. lia.
Qed.

Lemma In_odd_group (step : Z) (n i : nat) :
  In i (odd_group step n) <-> (i < n)%nat /\ (Z.of_nat i / step) mod 2 <> 0.
Proof.
  unfold odd_group, even_band.
  rewrite filter_In, in_seq, negb_true_iff, Z.eqb_neq. lia.
Qed.

Lemma interleave_order_Permutation (step : Z) (n : nat) :
  Permutation (interleave_order step n) (seq 0 n).
Proof. apply filter_partition_Permutation. Qed.

Lemma length_interleave_order (step : Z) (n : nat) :
  length (interleave_order step n) = n.
Proof.
  rewrite (Permutation_length (interleave_order_Permutation step n)).
  apply length_seq.
Qed.

Section CutFacts.
Context {A : Type}.
Implicit Types (a image : ndarray A).

Lemma concatenate_pair (ax : axis) a b :
  concatenate [a; b] ax = concatenate2 ax a b.
Proof. reflexivity. Qed.

Lemma mask_rows_select (p : nat -> bool) a :
  mask_rows a (map p (seq 0 (nrows a)))
  = Ok (select_along ROWS (filter p (seq 0 (nrows a))) a).
Proof.
  unfold mask_rows. rewrite length_map, length_seq, Nat.eqb_refl.
  unfold nrows. now rewrite compress_gather.
Qed.

Lemma mask_cols_select (p : nat -> bool) a :
  wf a ->
  mask_cols a (map p (seq 0 (ncols a)))
  = Ok (select_along COLUMNS (filter p (seq 0 (ncols a))) a).
Proof.
  intros Hwf. unfold mask_cols.
  rewrite length_map, length_seq, Nat.eqb_refl.
  rewrite count_true_map. cbn [select_along]. do 2 f_equal.
  apply map_ext_in. intros r Hr.
  unfold wf in Hwf. rewrite Forall_forall in Hwf.
  rewrite <- (Hwf r Hr). apply compress_gather.
Qed.

Lemma trailing_eq_refl (t : list nat) :
  (if list_eq_dec Nat.eq_dec t t then true else false) = true.
Proof. destruct (list_eq_dec Nat.eq_dec t t); congruence. Qed.

(** Masking an axis with a predicate and with its negation, then joining
    the two parts along that axis, selects the partition's order. *)
Lemma cut_aligned (step : Z) (ax : axis) a :
  wf a ->
  let mask := band_mask step (extent ax a) in
  (image_np_1 <- match ax with
                 | ROWS => mask_rows a mask
                 | COLUMNS => mask_cols a mask
                 end ;;
   image_np_2 <- match ax with
                 | ROWS => mask_rows a (map negb mask)
                 | COLUMNS => mask_cols a (map negb mask)
                 end ;;
   concatenate [image_np_1; image_np_2] ax)
  = Ok (select_along ax (interleave_order step (extent ax a)) a).
Proof.
  intros Hwf mask. subst mask. rewrite band_mask_even_band, map_map.
  unfold interleave_order, even_group, odd_group.
  destruct ax; cbn [extent].
  - rewrite !mask_rows_select. cbn [bind].
    rewrite concatenate_pair. unfold concatenate2.
    cbn [select_along trailing ncols rows].
    rewrite trailing_eq_refl, Nat.eqb_refl. cbn [negb].
    now rewrite gather_app.
  - rewrite !mask_cols_select by exact Hwf. cbn [bind].
    rewrite concatenate_pair. unfold concatenate2.
    cbn [select_along trailing ncols rows]. unfold nrows. cbn [rows].
    rewrite trailing_eq_refl, !length_map, Nat.eqb_refl. cbn [negb].
    rewrite zip_app_map, length_app. do 2 f_equal.
    apply map_ext. intros r. now rewrite gather_app.
Qed.

Lemma shape_select_along (step : Z) (ax : axis) a :
  shape (select_along ax (interleave_order step (extent ax a)) a) = shape a.
Proof.
  unfold shape, nrows. destruct ax; cbn [select_along rows ncols trailing extent].
  - f_equal.
    rewrite (Permutation_length
               (gather_Permutation _ _ (rows a)
                  (interleave_order_Permutation step (nrows a)))).
    unfold nrows. now rewrite gather_seq_all.
  - now rewrite length_map, length_interleave_order.
Qed.

Lemma cut_image_eq (step : Z) (ax : axis) a :
  1 <= step -> wf a ->
  exists aligned,
    adjust_image_size step a = Ok aligned /\ wf aligned /\
    cut_image step a ax
    = Ok (fromarray (select_along ax
                       (interleave_order step (extent ax aligned)) aligned)).
Proof.
  intros Hs Hwf.
  pose proof (adjust_image_size_eq step a ltac:(lia)) as E.
  set (al := slice2 _ _ a) in E.
  assert (Hal : wf al) by apply wf_slice2, Hwf.
  exists al. split; [exact E|]. split; [exact Hal|].
  unfold cut_image. rewrite E. cbn [bind].
  pose proof (cut_aligned step ax al Hal) as C. cbn zeta in C.
  destruct ax.
  - destruct (mask_rows al (band_mask step (extent ROWS al))) as [m1|e1];
      [|discriminate C]. cbn [bind] in *.
    destruct (mask_rows al (map negb (band_mask step (extent ROWS al))))
      as [m2|e2]; [|discriminate C]. cbn [bind] in *.
    now rewrite C.
  - destruct (mask_cols al (band_mask step (extent COLUMNS al))) as [m1|e1];
      [|discriminate C]. cbn [bind] in *.
    destruct (mask_cols al (map negb (band_mask step (extent COLUMNS al))))
      as [m2|e2]; [|discriminate C]. cbn [bind] in *.
    now rewrite C.
Qed.

End CutFacts.

(** ** Aligned buffers *)

Section SelectFacts.
Context {X : Type}.

Lemma length_gather (idxs : list nat) (xs : list X) :
  Forall (fun i => (i < length xs)%nat) idxs ->
  length (gather idxs xs) = length idxs.
Proof.
  unfold gather. induction 1 as [|i idxs Hi _ IH]; [reflexivity|].
  cbn [flat_map]. rewrite length_app, IH.
  destruct (nth_error xs i) eqn:E; [reflexivity|].
  apply nth_error_None in E. lia.
Qed.

Lemma In_gather (idxs : list nat) (xs : list X) (x : X) :
  In x (gather idxs xs) -> In x xs.
Proof.
  unfold gather. rewrite in_flat_map. intros (i & _ & H).
  destruct (nth_error xs i) eqn:E; [|contradiction].
  destruct H as [<-|[]]. eapply nth_error_In, E.
Qed.

Lemma gather_interleave_order_Permutation (step : Z) (xs : list X) :
  Permutation (gather (interleave_order step (length xs)) xs) xs.
Proof.
  rewrite <- (gather_seq_all xs) at 3.
  apply gather_Permutation, interleave_order_Permutation.
Qed.

Lemma concat_map_Permutation (f : list X -> list X) (l : list (list X)) :
  (forall r, In r l -> Permutation (f r) r) ->
  Permutation (concat (map f l)) (concat l).
Proof.
  induction l as [|r l IH]; intros H; simpl; [constructor|].
  apply Permutation_app; [apply H; now left|].
  apply IH. intros r' Hr'. apply H. now right.
Qed.

Lemma concat_Permutation (l1 l2 : list (list X)) :
  Permutation l1 l2 -> Permutation (concat l1) (concat l2).
Proof.
  intros H. rewrite <- (map_id l1), <- (map_id l2).
  rewrite <- !flat_map_concat_map. now apply Permutation_flat_map.
Qed.
End SelectFacts.

Lemma interleave_order_bound (step : Z) (n : nat) :
  Forall (fun i => (i < n)%nat) (interleave_order step n).
Proof.
  rewrite Forall_forall. intros i Hi.
  apply (Permutation_in _ (interleave_order_Permutation step n)) in Hi.
  apply in_seq in Hi. lia.
Qed.

Section AlignedFacts.
Context {A : Type}.
Implicit Types (a image : ndarray A).

Lemma slice2_full a :
  wf a -> slice2 (Z.of_nat (nrows a)) (Z.of_nat (ncols a)) a = a.
Proof.
  intros Hwf. destruct a as [w t rs]. unfold slice2, nrows in *.
  cbn [rows ncols trailing] in *. unfold wf in Hwf. cbn [rows ncols] in Hwf.
  f_equal.
  - rewrite slice_stop_nonneg by lia. lia.
  - unfold slice_to at 2. rewrite slice_stop_nonneg by lia.
    rewrite Nat2Z.id, Nat.min_id, firstn_all.
    rewrite <- (map_id rs) at 2. apply map_ext_in. intros r Hr.
    rewrite Forall_forall in Hwf. unfold slice_to.
    rewrite (Hwf r Hr), slice_stop_nonneg by lia.
    rewrite Nat2Z.id, Nat.min_id, <- (Hwf r Hr). apply firstn_all.
Qed.

Lemma floor_multiple_exact (n step : Z) :
  1 <= step -> (step | n) -> n / step * step = n.
Proof. intros Hs [k ->]. rewrite Z.div_mul by lia. reflexivity. Qed.

(** A buffer that is aligned already is left as it is. *)
Lemma adjust_image_size_aligned (step : Z) a :
  1 <= step -> wf a -> aligned step a -> adjust_image_size step a = Ok a.
Proof.
  intros Hs Hwf [Hh Hw]. rewrite adjust_image_size_eq by lia.
  rewrite !floor_multiple_exact by assumption.
  now rewrite slice2_full.
Qed.

Lemma aligned_adjust (step : Z) a :
  1 <= step ->
  aligned step (slice2 (Z.of_nat (nrows a) / step * step)
                       (Z.of_nat (ncols a) / step * step) a).
Proof.
  intros Hs. unfold aligned. rewrite nrows_slice2. cbn [slice2 ncols].
  rewrite !slice_stop_floor by exact Hs.
  split; apply Z.divide_factor_r.
Qed.

Lemma wf_select_along (step : Z) (ax : axis) a :
  wf a -> wf (select_along ax (interleave_order step (extent ax a)) a).
Proof.
  unfold wf. rewrite !Forall_forall. intros Hwf r Hr.
  destruct ax; cbn [select_along rows ncols extent] in *.
  - apply Hwf. eapply In_gather, Hr.
  - apply in_map_iff in Hr as (r0 & <- & Hr0).
    apply length_gather. rewrite (Hwf r0 Hr0).
    apply interleave_order_bound.
Qed.

Lemma aligned_shape (step : Z) (a b : ndarray A) :
  shape a = shape b -> aligned step b -> aligned step a.
Proof.
  unfold shape, aligned. intros E. injection E as -> -> _. tauto.
Qed.

(** Reordering whole rows or whole columns keeps every pixel. *)
Lemma pixels_select_along (step : Z) (ax : axis) a :
  wf a ->
  Permutation
    (pixels (select_along ax (interleave_order step (extent ax a)) a))
    (pixels a).
Proof.
  intros Hwf. unfold pixels.
  destruct ax; cbn [select_along rows extent].
  - apply concat_Permutation. unfold nrows.
    apply gather_interleave_order_Permutation.
  - apply concat_map_Permutation. intros r Hr.
    unfold wf in Hwf. rewrite Forall_forall in Hwf.
    rewrite <- (Hwf r Hr). apply gather_interleave_order_Permutation.
Qed.

Lemma cut_image_aligned (step : Z) (ax : axis) a :
  1 <= step -> wf a -> aligned step a ->
  cut_image step a ax
  = Ok (fromarray (select_along ax (interleave_order step (extent ax a)) a)).
Proof.
  intros Hs Hwf Hal.
  destruct (cut_image_eq step ax a Hs Hwf) as (al & E & _ & C).
  rewrite adjust_image_size_aligned in E by assumption.
  injection E as <-. exact C.
Qed.
End AlignedFacts.

(** ** What interleaving keeps *)

Section InterleaveFacts.
Context {A : Type}.
Implicit Types (a image : ndarray A).

Lemma pixel_count_shape (a b : ndarray A) :
  shape a = shape b -> pixel_count a = pixel_count b.
Proof.
  unfold shape, pixel_count. intros E. injection E as -> -> _. reflexivity.
Qed.

(** The pixel of a selected buffer is the pixel of the buffer at the
    position the selection names. *)
Lemma pixel_select_along (ax : axis) (order : list nat) a (i j : nat) :
  wf a ->
  Forall (fun k => (k < extent ax a)%nat) order ->
  pixel (select_along ax order a) i j
  = match source ax order i j with
    | Some (i', j') => pixel a i' j'
    | None => None
    end.
Proof.
  intros Hwf Hb. unfold pixel, source.
  destruct ax; cbn [select_along rows extent] in *.
  - rewrite nth_error_gather by exact Hb.
    destruct (nth_error order i); reflexivity.
  - rewrite nth_error_map.
    destruct (nth_error (rows a) i) as [r|] eqn:Er; cbn [option_map].
    + unfold wf in Hwf. rewrite Forall_forall in Hwf.
      rewrite nth_error_gather
        by (rewrite (Hwf r (nth_error_In _ _ Er)); exact Hb).
      destruct (nth_error order j); cbn [option_map]; rewrite ?Er;
        reflexivity.
    + destruct (nth_error order j); cbn [option_map]; rewrite ?Er;
        reflexivity.
Qed.

(** C1. For a step of at least 1, [cut_image] first aligns the buffer and
    then returns the stable partition of the aligned buffer's positions
    along the axis: position [i] is in the even group iff
    [(i // step) % 2 == 0]; the output is the even-group positions in
    their original order followed by the odd-group positions in their
    original order; every aligned position appears exactly once; and the
    output has the shape of the aligned buffer. *)
Theorem cut_image_stable_partition (step : Z) (ax : axis) a :
  1 <= step -> wf a ->
  exists aligned,
    adjust_image_size step a = Ok aligned /\
    let n := extent ax aligned in
    let evens := even_group step n in
    let odds := odd_group step n in
    cut_image step a ax
    = Ok (fromarray (select_along ax (evens ++ odds) aligned)) /\
    (forall i, In i evens <-> (i < n)%nat /\ (Z.of_nat i / step) mod 2 = 0) /\
    (forall i, In i odds <-> (i < n)%nat /\ (Z.of_nat i / step) mod 2 <> 0) /\
    Sorted lt evens /\ Sorted lt odds /\
    Permutation (evens ++ odds) (seq 0 n) /\
    NoDup (evens ++ odds) /\
    (forall i j,
        pixel (select_along ax (evens ++ odds) aligned) i j
        = match source ax (evens ++ odds) i j with
          | Some (i', j') => pixel aligned i' j'
          | None => None
          end) /\
    shape (select_along ax (evens ++ odds) aligned) = shape aligned.
Proof.
  intros Hs Hwf.
  destruct (cut_image_eq step ax a Hs Hwf) as (al & E & Hal & C).
  exists al. split; [exact E|]. cbn zeta.
  split; [exact C|].
  split; [intros i; apply In_even_group|].
  split; [intros i; apply In_odd_group|].
  split; [apply filter_Sorted_lt, seq_Sorted|].
  split; [apply filter_Sorted_lt, seq_Sorted|].
  split; [apply interleave_order_Permutation|].
  split.
  { eapply Permutation_NoDup; [|apply (seq_NoDup (extent ax al) 0)].
    symmetry. apply interleave_order_Permutation. }
  split; [|apply shape_select_along].
  intros i j. apply pixel_select_along; [exact Hal|].
  apply interleave_order_bound.
Qed.
(** C5, as amended. For a step of at least 1, the output of [cut_image]
    has the pixel count, the shape and the channel dimension of the
    aligned input buffer, and holds the aligned buffer's pixels, each once;
    on an input buffer that is aligned already these are the input's. *)
Theorem cut_image_preserves_aligned (step : Z) (ax : axis) a :
  1 <= step -> wf a ->
  exists al out,
    adjust_image_size step a = Ok al /\
    cut_image step a ax = Ok out /\
    np_array out = select_along ax (interleave_order step (extent ax al)) al /\
    pixel_count (np_array out) = pixel_count al /\
    shape (np_array out) = shape al /\
    trailing (np_array out) = trailing a /\
    Permutation (pixels (np_array out)) (pixels al) /\
    (aligned step a -> al = a).
Proof.
  intros Hs Hwf.
  destruct (cut_image_eq step ax a Hs Hwf) as (al & E & Hal & C).
  exists al, (fromarray (select_along ax
                           (interleave_order step (extent ax al)) al)).
  cbn [np_array].
  split; [exact E|]. split; [exact C|]. split; [reflexivity|].
  split; [apply pixel_count_shape, shape_select_along|].
  split; [apply shape_select_along|].
  split.
  { rewrite adjust_image_size_eq in E by lia. injection E as <-.
    now destruct ax. }
  split; [apply pixels_select_along, Hal|].
  intros Ha. rewrite adjust_image_size_aligned in E by assumption.
  now injection E.
Qed.

Lemma filter_all {X : Type} (p : X -> bool) (l : list X) :
  (forall x, In x l -> p x = true) -> filter p l = l.
Proof.
  induction l as [|x l IH]; intros H; simpl; [reflexivity|].
  rewrite (H x) by now left. f_equal. apply IH.
  intros y Hy. apply H. now right.
Qed.

Lemma filter_none {X : Type} (p : X -> bool) (l : list X) :
  (forall x, In x l -> p x = false) -> filter p l = [].
Proof.
  induction l as [|x l IH]; intros H; simpl; [reflexivity|].
  rewrite (H x) by now left. apply IH.
  intros y Hy. apply H. now right.
Qed.

Lemma even_band_first (step : Z) (i : nat) :
  Z.of_nat i < step -> even_band step i = true.
Proof.
  intros H. unfold even_band. rewrite Z.div_small by lia. reflexivity.
Qed.

Lemma even_group_single_band (step : Z) (n : nat) :
  Z.of_nat n <= step -> even_group step n = seq 0 n.
Proof.
  intros H. apply filter_all. intros i Hi. apply in_seq in Hi.
  apply even_band_first. lia.
Qed.

Lemma odd_group_single_band (step : Z) (n : nat) :
  Z.of_nat n <= step -> odd_group step n = [].
Proof.
  intros H. apply filter_none. intros i Hi. apply in_seq in Hi.
  rewrite even_band_first by lia. reflexivity.
Qed.

Lemma select_along_all (ax : axis) a :
  wf a -> select_along ax (seq 0 (extent ax a)) a = a.
Proof.
  intros Hwf. destruct a as [w t rs]. unfold wf in Hwf.
  cbn [rows ncols] in Hwf.
  destruct ax; unfold select_along, extent, nrows;
    cbn [rows ncols trailing].
  - now rewrite gather_seq_all.
  - rewrite length_seq. f_equal.
    rewrite <- (map_id rs) at 2. apply map_ext_in. intros r Hr.
    rewrite Forall_forall in Hwf. rewrite <- (Hwf r Hr).
    apply gather_seq_all.
Qed.

Lemma extent_adjust (step : Z) (ax : axis) a :
  1 <= step ->
  Z.of_nat (extent ax (slice2 (Z.of_nat (nrows a) / step * step)
                              (Z.of_nat (ncols a) / step * step) a))
  = Z.of_nat (extent ax a) / step * step.
Proof.
  intros Hs. destruct ax; cbn [extent].
  - rewrite nrows_slice2. now apply slice_stop_floor.
  - cbn [slice2 ncols]. now apply slice_stop_floor.
Qed.

(** C6, as amended. When the extent of the buffer along the axis equals
    [step], all positions of the aligned buffer along the axis are in the
    one even band, the odd group is empty, and [cut_image] returns the
    aligned buffer unchanged; this is the input buffer itself when the
    extent along the other axis is a multiple of [step]. *)
Theorem cut_image_single_band (step : Z) (ax : axis) a :
  1 <= step -> wf a -> Z.of_nat (extent ax a) = step ->
  exists al,
    adjust_image_size step a = Ok al /\
    extent ax al = extent ax a /\
    even_group step (extent ax al) = seq 0 (extent ax al) /\
    odd_group step (extent ax al) = [] /\
    cut_image step a ax = Ok (fromarray al) /\
    ((step | Z.of_nat (extent (other ax) a)) ->
     cut_image step a ax = Ok (fromarray a)).
Proof.
  intros Hs Hwf Hn.
  destruct (cut_image_eq step ax a Hs Hwf) as (al & E & Hal & C).
  assert (Hext : extent ax al = extent ax a).
  { rewrite adjust_image_size_eq in E by lia. injection E as <-.
    apply Nat2Z.inj. rewrite extent_adjust by exact Hs.
    rewrite Hn, Z.div_same by lia. lia. }
  assert (He : even_group step (extent ax al) = seq 0 (extent ax al))
    by (apply even_group_single_band; lia).
  assert (Ho : odd_group step (extent ax al) = [])
    by (apply odd_group_single_band; lia).
  assert (Cal : cut_image step a ax = Ok (fromarray al)).
  { rewrite C. unfold interleave_order.
    rewrite He, Ho, app_nil_r, select_along_all by exact Hal.
    reflexivity. }
  exists al. repeat (split; [assumption|]).
  intros Hother. rewrite Cal. do 2 f_equal.
  rewrite adjust_image_size_aligned in E.
  - now injection E.
  - exact Hs.
  - exact Hwf.
  - unfold aligned. destruct ax; cbn [extent other] in *; split;
      try exact Hother; rewrite Hn; apply Z.divide_refl.
Qed.
End InterleaveFacts.

(** C5 as the specification words it, for every input buffer, fails: a
    3 x 3 buffer cut with step 2 comes out with the 4 pixels of its aligned
    2 x 2 crop, not with its own 9. *)
Lemma cut_image_pixel_count_counterexample :
  exists out,
    cut_image 2 buffer_3x3 ROWS = Ok out /\
    pixel_count (np_array out) = 4%nat /\
    pixel_count buffer_3x3 = 9%nat /\
    pixel_count (np_array out) <> pixel_count buffer_3x3.
Proof.
  eexists. split; [reflexivity|]. cbn. repeat split. discriminate.
Qed.

(** C6 as the specification words it, for every single-band buffer, fails:
    a buffer of 2 rows and 3 columns has one band of rows for step 2, and
    cutting it along the rows returns its 2 x 2 crop, not the buffer. *)
Lemma cut_image_single_band_counterexample :
  Z.of_nat (extent ROWS buffer_2x3) = 2 /\
  cut_image 2 buffer_2x3 ROWS
  = Ok (fromarray {| ncols := 2; trailing := [];
                     rows := [[1; 2]; [4; 5]] |}) /\
  cut_image 2 buffer_2x3 ROWS <> Ok (fromarray buffer_2x3).
Proof.
  split; [reflexivity|]. split; [reflexivity|]. discriminate.
Qed.

(** ** [process_image] *)

Section ProcessFacts.
Context {A : Type}.
Variable image_files : string -> entry A.
Implicit Types (a image : ndarray A).

Lemma ncols_select_along (step : Z) (ax : axis) a :
  ncols (select_along ax (interleave_order step (extent ax a)) a) = ncols a.
Proof.
  pose proof (shape_select_along step ax a) as E.
  unfold shape in E. now injection E.
Qed.

Lemma nrows_select_along (step : Z) (ax : axis) a :
  nrows (select_along ax (interleave_order step (extent ax a)) a) = nrows a.
Proof.
  pose proof (shape_select_along step ax a) as E.
  unfold shape in E. now injection E.
Qed.

Lemma trailing_select_along (ax : axis) (idxs : list nat) a :
  trailing (select_along ax idxs a) = trailing a.
Proof. now destruct ax. Qed.

(** C2. For an image file and a step of at least 1, [process_image]
    returns the concatenation along the row axis of the aligned base
    buffer, of [cut_image] of the base along the columns, and of
    [cut_image] of that vertical variant (not of the base) along the rows;
    the composite is three aligned heights tall and one aligned width
    wide. *)
Theorem process_image_composite (step : Z) (path : string) a :
  1 <= step -> image_files path = an_image a -> wf a ->
  exists base vertical horizontal composite,
    adjust_image_size step a = Ok base /\
    cut_image step base COLUMNS = Ok (fromarray vertical) /\
    cut_image step vertical ROWS = Ok (fromarray horizontal) /\
    concatenate [base; vertical; horizontal] ROWS = Ok composite /\
    process_image image_files step (VStr path) = Ok (fromarray composite) /\
    rows composite = rows base ++ rows vertical ++ rows horizontal /\
    Z.of_nat (nrows composite) = 3 * (Z.of_nat (nrows a) / step * step) /\
    Z.of_nat (ncols composite) = Z.of_nat (ncols a) / step * step /\
    trailing composite = trailing a.
Proof.
  intros Hs Hfile Hwf.
  pose proof (adjust_image_size_eq step a ltac:(lia)) as E.
  set (base := slice2 _ _ a) in E.
  assert (Wb : wf base) by apply wf_slice2, Hwf.
  assert (Ab : aligned step base) by apply aligned_adjust, Hs.
  set (vertical := select_along COLUMNS
                     (interleave_order step (extent COLUMNS base)) base).
  assert (Cv : cut_image step base COLUMNS = Ok (fromarray vertical))
    by now apply cut_image_aligned.
  assert (Wv : wf vertical) by apply wf_select_along, Wb.
  assert (Av : aligned step vertical).
  { eapply aligned_shape; [apply shape_select_along | exact Ab]. }
  set (horizontal := select_along ROWS
                       (interleave_order step (extent ROWS vertical))
                       vertical).
  assert (Ch : cut_image step vertical ROWS = Ok (fromarray horizontal))
    by now apply cut_image_aligned.
  assert (Nv : ncols vertical = ncols base) by apply ncols_select_along.
  assert (Nh : ncols horizontal = ncols base).
  { unfold horizontal. now rewrite ncols_select_along. }
  assert (Rv : nrows vertical = nrows base) by apply nrows_select_along.
  assert (Rh : nrows horizontal = nrows base).
  { unfold horizontal. now rewrite nrows_select_along. }
  assert (Tv : trailing vertical = trailing base)
    by apply trailing_select_along.
  assert (Th : trailing horizontal = trailing base).
  { unfold horizontal. now rewrite trailing_select_along. }
  set (composite := {| ncols := ncols base; trailing := trailing base;
                       rows := (rows base ++ rows vertical)
                                 ++ rows horizontal |}).
  assert (Cc : concatenate [base; vertical; horizontal] ROWS = Ok composite).
  { assert (C1 : concatenate2 ROWS base vertical
                 = Ok {| ncols := ncols base; trailing := trailing base;
                         rows := rows base ++ rows vertical |}).
    { unfold concatenate2.
      now rewrite Tv, trailing_eq_refl, Nv, Nat.eqb_refl. }
    unfold concatenate. cbn [fold_left bind]. rewrite C1. cbn [bind].
    unfold concatenate2. cbn [trailing ncols rows].
    now rewrite Th, trailing_eq_refl, Nh, Nat.eqb_refl. }
  exists base, vertical, horizontal, composite.
  split; [exact E|]. split; [exact Cv|]. split; [exact Ch|].
  split; [exact Cc|].
  split.
  { unfold process_image, Image_open. rewrite Hfile.
    cbn [try_except bind np_array]. rewrite E. cbn [bind].
    rewrite Cv. cbn [bind np_array]. rewrite Ch. cbn [bind np_array].
    rewrite Cc. reflexivity. }
  split; [cbn [composite rows]; now rewrite app_assoc|].
  split.
  { unfold nrows at 1. cbn [composite rows].
    rewrite !length_app. fold (nrows base) (nrows vertical) (nrows horizontal).
    rewrite Rv, Rh.
    pose proof (extent_adjust step ROWS a Hs) as Eh. cbn [extent] in Eh.
    fold base in Eh. lia. }
  split.
  { cbn [composite ncols].
    pose proof (extent_adjust step COLUMNS a Hs) as Ew. cbn [extent] in Ew.
    exact Ew. }
  reflexivity.
Qed.
End ProcessFacts.

(** ** binary64 arithmetic of the step bound *)

Section Binary64.

Lemma digits2_pos_bounds (p : positive) :
  2 ^ (Zpos (digits2_pos p) - 1) <= Zpos p < 2 ^ Zpos (digits2_pos p).
Proof.
  induction p as [p IH|p IH|]; cbn [digits2_pos].
  - rewrite Pos2Z.inj_succ, Z.pow_succ_r by lia.
    replace (Z.succ (Zpos (digits2_pos p)) - 1)
      with (Z.succ (Zpos (digits2_pos p) - 1)) by lia.
    rewrite Z.pow_succ_r by lia. lia.
  - rewrite Pos2Z.inj_succ, Z.pow_succ_r by lia.
    replace (Z.succ (Zpos (digits2_pos p)) - 1)
      with (Z.succ (Zpos (digits2_pos p) - 1)) by lia.
    rewrite Z.pow_succ_r by lia. lia.
  - cbn. lia.
Qed.

Lemma digits2_pos_unique (p : positive) (k : Z) :
  2 ^ (k - 1) <= Zpos p < 2 ^ k -> Zpos (digits2_pos p) = k.
Proof.
  intros [L U]. pose proof (digits2_pos_bounds p) as [L' U'].
  assert (0 < k).
  { destruct (Z.ltb_spec 0 k); [assumption|].
    assert (2 ^ k <= 2 ^ 0) by (apply Z.pow_le_mono_r; lia).
    cbn in *. lia. }
  destruct (Z.lt_trichotomy (Zpos (digits2_pos p)) k) as [C|[C|C]];
    [|exact C|].
  - assert (2 ^ Zpos (digits2_pos p) <= 2 ^ (k - 1))
      by (apply Z.pow_le_mono_r; lia). lia.
  - assert (2 ^ k <= 2 ^ (Zpos (digits2_pos p) - 1))
      by (apply Z.pow_le_mono_r; lia). lia.
Qed.

Lemma iter_xO (k p : positive) :
  Zpos (Pos.iter xO p k) = Zpos p * 2 ^ Zpos k.
Proof.
  induction k as [|k IH] using Pos.peano_ind.
  - cbn. lia.
  - rewrite Pos.iter_succ, Pos2Z.inj_succ, Z.pow_succ_r by lia.
    rewrite Pos2Z.inj_xO, IH. lia.
Qed.

Lemma shr_1_m (mrs : shr_record) :
  0 <= shr_m mrs -> shr_m (shr_1 mrs) = shr_m mrs / 2.
Proof.
  destruct mrs as [m r s]. cbn [shr_m]. intros H.
  destruct m as [|[p|p|]|p]; cbn [shr_1 shr_m]; try lia;
    try reflexivity;
    [apply Z.div_unique with (r := 1) | apply Z.div_unique with (r := 0)];
    lia.
Qed.

Lemma iter_shr_1_m (k : positive) : forall mrs,
  0 <= shr_m mrs ->
  shr_m (iter_pos shr_1 k mrs) = shr_m mrs / 2 ^ Zpos k.
Proof.
  assert (N : forall mrs, 0 <= shr_m mrs -> 0 <= shr_m mrs / 2)
    by (intros; apply Z.div_pos; lia).
  induction k as [k IH|k IH|]; intros mrs H; cbn [iter_pos].
  - rewrite !IH, shr_1_m; try assumption.
    + rewrite !Z.div_div by lia. f_equal.
      replace (Zpos k~1) with (1 + Zpos k + Zpos k) by lia.
      rewrite !Z.pow_add_r by lia. change (2 ^ 1) with 2. lia.
    + rewrite shr_1_m by assumption. auto.
    + rewrite IH, shr_1_m by (rewrite ?shr_1_m; auto).
      apply Z.div_pos; [auto | lia].
  - rewrite !IH; try assumption.
    + rewrite Z.div_div by lia. f_equal.
      replace (Zpos k~0) with (Zpos k + Zpos k) by lia.
      rewrite Z.pow_add_r by lia. reflexivity.
    + rewrite IH by assumption. apply Z.div_pos; [assumption|lia].
  - now rewrite shr_1_m.
Qed.

Lemma shr_spec (mrs : shr_record) (e n : Z) :
  0 <= shr_m mrs -> 0 <= n ->
  exists mrs', shr mrs e n = (mrs', e + n) /\
               shr_m mrs' = shr_m mrs / 2 ^ n /\
               (n = 0 -> mrs' = mrs).
Proof.
  intros Hm Hn. destruct n as [|k|k]; [| |lia].
  - exists mrs. cbn [shr]. now rewrite Z.add_0_r, Z.div_1_r.
  - exists (iter_pos shr_1 k mrs). split; [reflexivity|].
    split; [now apply iter_shr_1_m | discriminate].
Qed.

Lemma Zdigits2_unique (z k : Z) :
  0 < z -> 2 ^ (k - 1) <= z < 2 ^ k -> Zdigits2 z = k.
Proof.
  intros Hz H. destruct z as [|p|p]; try lia.
  cbn [Zdigits2]. now apply digits2_pos_unique.
Qed.

Lemma Zdigits2_bounds (z : Z) :
  0 < z -> 2 ^ (Zdigits2 z - 1) <= z < 2 ^ Zdigits2 z.
Proof.
  intros Hz. destruct z as [|p|p]; try lia. apply digits2_pos_bounds.
Qed.

Lemma fexp_normal (e : Z) :
  -1074 <= e - 53 -> fexp prec emax e = e - 53.
Proof. unfold fexp, SpecFloat.emin, prec, emax. lia. Qed.

Lemma round_nearest_even_bounds (m : Z) (l : location) :
  m <= round_nearest_even m l <= m + 1.
Proof.
  destruct l as [|[| |]]; cbn [round_nearest_even]; try lia.
  destruct (Z.even m); lia.
Qed.

Lemma round_exact (m : Z) :
  round_nearest_even
    (shr_m (shr_record_of_loc m loc_Exact))
    (loc_of_shr_record (shr_record_of_loc m loc_Exact)) = m.
Proof. reflexivity. Qed.

(** Rounding a positive mantissa of at least 53 digits to binary64, in the
    normal range: the result is the mantissa shifted down to 53 digits,
    or that plus one, at the exponent moved up by the shift. *)
Lemma binary_round_aux_spec (mx ex : Z) :
  0 < mx ->
  let D := Zdigits2 mx in
  53 <= D -> -1074 <= D + ex - 53 -> D + ex <= 1023 ->
  exists (m : positive) (e m2 : Z),
    binary_round_aux prec emax false mx ex loc_Exact
    = S754_finite false m e /\
    mx / 2 ^ (D - 53) <= m2 <= mx / 2 ^ (D - 53) + 1 /\
    (D = 53 -> m2 = mx) /\
    0 <= e - (ex + D - 53) <= 1 /\
    m2 = Zpos m * 2 ^ (e - (ex + D - 53)) /\
    (m2 < 2 ^ 53 -> e = ex + D - 53).
Proof.
  intros Hmx D HD Hlo Hhi.
  pose proof (Zdigits2_bounds mx Hmx) as Bmx. fold D in Bmx.
  unfold binary_round_aux, shr_fexp. fold D.
  rewrite fexp_normal by lia.
  replace (D + ex - 53 - ex) with (D - 53) by lia.
  destruct (shr_spec (shr_record_of_loc mx loc_Exact) ex (D - 53))
    as (mrs1 & -> & Hm1 & Hz1); [cbn; lia | lia |].
  cbn [shr_record_of_loc shr_m] in Hm1.
  set (e1 := ex + (D - 53)).
  set (m2 := round_nearest_even (shr_m mrs1) (loc_of_shr_record mrs1)).
  assert (Bm2 : mx / 2 ^ (D - 53) <= m2 <= mx / 2 ^ (D - 53) + 1).
  { rewrite <- Hm1. apply round_nearest_even_bounds. }
  assert (P : 0 < 2 ^ (D - 53)) by (apply Z.pow_pos_nonneg; lia).
  assert (E : 2 ^ (D - 1) = 2 ^ 52 * 2 ^ (D - 53)).
  { rewrite <- Z.pow_add_r by lia. f_equal. lia. }
  assert (E' : 2 ^ D = 2 ^ 53 * 2 ^ (D - 53)).
  { rewrite <- Z.pow_add_r by lia. f_equal. lia. }
  assert (L1 : 2 ^ 52 <= mx / 2 ^ (D - 53)).
  { apply Z.div_le_lower_bound; lia. }
  assert (U1 : mx / 2 ^ (D - 53) < 2 ^ 53).
  { apply Z.div_lt_upper_bound; lia. }
  assert (Dexact : D = 53 -> m2 = mx).
  { intros HD53. unfold m2. rewrite Hz1 by lia. apply round_exact. }
  assert (Hm2 : 0 < m2) by lia.
  destruct (Z.eq_dec m2 (2 ^ 53)) as [Hcarry|Hnocarry].
  - (* the rounding carried into a 54th digit *)
    assert (D2 : Zdigits2 m2 = 54).
    { apply Zdigits2_unique; [exact Hm2|]. rewrite Hcarry.
      split; [reflexivity | apply Z.pow_lt_mono_r; lia]. }
    rewrite D2, fexp_normal by lia.
    replace (54 + e1 - 53 - e1) with 1 by lia.
    destruct (shr_spec (shr_record_of_loc m2 loc_Exact) e1 1)
      as (mrs2 & -> & Hm2' & _); [cbn; lia | lia |].
    cbn [shr_record_of_loc shr_m] in Hm2'.
    rewrite Hm2', Hcarry. change (2 ^ 53 / 2 ^ 1) with (Zpos (2 ^ 52)).
    assert (Hle : (e1 + 1 <=? emax - prec) = true)
      by (apply Z.leb_le; unfold emax, prec; lia).
    rewrite Hle.
    exists (2 ^ 52)%positive, (e1 + 1), m2.
    split; [reflexivity|]. split; [exact Bm2|]. split; [exact Dexact|].
    replace (e1 + 1 - (ex + D - 53)) with 1 by lia.
    split; [lia|]. split; [rewrite Hcarry; reflexivity | lia].
  - assert (D2 : Zdigits2 m2 = 53).
    { apply Zdigits2_unique; [exact Hm2|]. change (53 - 1) with 52. lia. }
    rewrite D2, fexp_normal by lia.
    replace (53 + e1 - 53 - e1) with 0 by lia.
    destruct (shr_spec (shr_record_of_loc m2 loc_Exact) e1 0)
      as (mrs2 & -> & _ & Hz2); [cbn; lia | lia |].
    rewrite Hz2 by reflexivity. cbn [shr_record_of_loc shr_m].
    destruct m2 as [|q|q] eqn:Eq; try lia.
    assert (Hle : (e1 + 0 <=? emax - prec) = true)
      by (apply Z.leb_le; unfold emax, prec; lia).
    rewrite Hle.
    exists q, (e1 + 0), (Zpos q).
    split; [reflexivity|]. split; [exact Bm2|]. split; [exact Dexact|].
    replace (e1 + 0 - (ex + D - 53)) with 0 by lia.
    split; [lia|]. split; [lia | lia].
Qed.

(** The two literals of the program and of the examples: [float_0_02] is a
    binary64 number and the nearest one to 1/50 (its mantissa is within half
    a unit of 2^58 / 50); [float_2_5] is 5/2 exactly. *)
Lemma float_0_02_nearest :
  valid_binary prec emax float_0_02 = true /\
  2 * Z.abs (50 * 5764607523034235 - 2 ^ 58) <= 50.
Proof. split; [reflexivity | cbv; discriminate]. Qed.

Lemma float_2_5_exact :
  valid_binary prec emax float_2_5 = true /\
  2 * 5629499534213120 = 5 * 2 ^ 51.
Proof. split; reflexivity. Qed.

(** [Z.shiftl m e] is the integer part of [m * 2^e]. *)
Lemma shiftl_integer_part (m : positive) (e : Z) :
  let magnitude := Z.shiftl (Zpos m) e in
  0 <= magnitude /\
  magnitude * 2 ^ Z.max 0 (- e) <= Zpos m * 2 ^ Z.max 0 e
  < (magnitude + 1) * 2 ^ Z.max 0 (- e).
Proof.
  intros magnitude. subst magnitude.
  destruct (Z.leb_spec 0 e) as [He|He].
  - rewrite Z.shiftl_mul_pow2 by exact He.
    rewrite (Z.max_l 0 (- e)), (Z.max_r 0 e) by lia.
    change (2 ^ 0) with 1.
    assert (0 < 2 ^ e) by (apply Z.pow_pos_nonneg; lia). nia.
  - rewrite Z.shiftl_div_pow2 by lia.
    rewrite (Z.max_r 0 (- e)), (Z.max_l 0 e) by lia.
    change (2 ^ 0) with 1.
    assert (P : 0 < 2 ^ (- e)) by (apply Z.pow_pos_nonneg; lia).
    pose proof (Z.mul_div_le (Zpos m) (2 ^ (- e)) P).
    pose proof (Z.mul_succ_div_gt (Zpos m) (2 ^ (- e)) P).
    pose proof (Z.div_pos (Zpos m) (2 ^ (- e)) ltac:(lia) P).
    lia.
Qed.

(** An [int] below 2^53 converts without rounding. *)
Lemma float_of_int_exact (n : Z) :
  1 <= n < 2 ^ 53 ->
  exists (mz : positive) (d : Z),
    2 ^ (d - 1) <= n < 2 ^ d /\ 1 <= d <= 53 /\
    Zpos mz = n * 2 ^ (53 - d) /\
    float_of_int n = Ok (S754_finite false mz (d - 53)).
Proof.
  intros Hn. destruct n as [|p|p]; try lia.
  pose proof (digits2_pos_bounds p) as Bp.
  set (d := Zpos (digits2_pos p)) in *.
  assert (Hd : 1 <= d <= 53).
  { split; [unfold d; lia|].
    destruct (Z.leb_spec d 53) as [|C]; [assumption|].
    assert (2 ^ 53 <= 2 ^ (d - 1)) by (apply Z.pow_le_mono_r; lia). lia. }
  assert (Hshl : exists mz, Zpos mz = Zpos p * 2 ^ (53 - d) /\
                   shl_align p 0 (fexp prec emax (d + 0)) = (mz, d - 53)).
  { rewrite fexp_normal by lia. unfold shl_align.
    destruct (d + 0 - 53 - 0) as [|k|k] eqn:Ek; try lia.
    - exists p. replace (53 - d) with 0 by lia.
      replace (d - 53) with 0 by lia. split; [lia | reflexivity].
    - exists (Pos.iter xO p k). rewrite iter_xO.
      replace (53 - d) with (Zpos k) by lia.
      split; [reflexivity | f_equal; lia]. }
  destruct Hshl as (mz & Hmz & Hshl).
  exists mz, d. split; [exact Bp|]. split; [exact Hd|].
  split; [exact Hmz|].
  unfold float_of_int, binary_normalize, binary_round.
  cbn [Zdigits2]. fold d. rewrite Hshl.
  assert (P : 0 < 2 ^ (53 - d)) by (apply Z.pow_pos_nonneg; lia).
  assert (E52 : 2 ^ 52 = 2 ^ (d - 1) * 2 ^ (53 - d)).
  { rewrite <- Z.pow_add_r by lia. f_equal. lia. }
  assert (E53 : 2 ^ 53 = 2 ^ d * 2 ^ (53 - d)).
  { rewrite <- Z.pow_add_r by lia. f_equal. lia. }
  assert (Dz : Zdigits2 (Zpos mz) = 53).
  { apply Zdigits2_unique; [lia|]. change (53 - 1) with 52.
    rewrite Hmz, E52, E53. nia. }
  pose proof (binary_round_aux_spec (Zpos mz) (d - 53) ltac:(lia)) as R.
  cbn zeta in R. rewrite Dz in R.
  destruct R as (m & e & m2 & -> & _ & Hex & _ & Hm2 & He); try lia.
  specialize (Hex eq_refl).
  rewrite Hex in *.
  assert (Lt53 : Zpos mz < 2 ^ 53) by (rewrite Hmz, E53; nia).
  specialize (He Lt53). subst e.
  replace (d - 53 + 53 - 53 - (d - 53 + 53 - 53)) with 0 in Hm2 by lia.
  change (2 ^ 0) with 1 in Hm2. rewrite Z.mul_1_r in Hm2.
  injection Hm2 as ->.
  replace (d - 53 + 53 - 53) with (d - 53) by lia. reflexivity.
Qed.

(** The double product [n * 0.02], cut to an integer, is [n // 50] for
    every [n] below 2^31: the rounding of the literal and of the product
    never reach the next multiple of 50. *)
Lemma int_mul_0_02 (n : Z) :
  0 <= n < 2 ^ 31 ->
  (x <- float_of_int n ;; int (VFloat (float_mul x float_0_02)))
  = Ok (n / 50).
Proof.
  intros Hn. destruct (Z.eq_dec n 0) as [->|Hn0]; [reflexivity|].
  destruct (float_of_int_exact n) as (mz & d & Bd & Hd & Hmz & ->).
  { split; [lia|]. assert (2 ^ 31 < 2 ^ 53) by reflexivity. lia. }
  cbn [bind int int_of_float float_mul float_0_02 SFmul xorb].
  set (m0 := 5764607523034235%positive).
  assert (Hd31 : d <= 31).
  { destruct (Z.leb_spec d 31) as [|C]; [assumption|].
    assert (2 ^ 31 <= 2 ^ (d - 1)) by (apply Z.pow_le_mono_r; lia). lia. }
  set (V := 2 ^ (53 - d)) in *.
  assert (HV : 2 ^ 22 <= V) by (apply Z.pow_le_mono_r; lia).
  assert (HV' : V * 2 ^ d = 2 ^ 53).
  { unfold V. rewrite <- Z.pow_add_r by lia. f_equal. lia. }
  assert (HVd : V * 2 ^ (d - 1) = 2 ^ 52).
  { unfold V. rewrite <- Z.pow_add_r by lia. f_equal. lia. }
  set (mx := Zpos (mz * m0)).
  assert (Emx : mx = n * V * Zpos m0) by (unfold mx; lia).
  assert (Lmx : 2 ^ 104 <= mx).
  { rewrite Emx. change (2 ^ 104) with (2 ^ 52 * 2 ^ 52).
    assert (2 ^ 52 <= n * V).
    { rewrite <- HVd, (Z.mul_comm n V).
      apply Z.mul_le_mono_nonneg_l; lia. }
    apply Z.mul_le_mono_nonneg; [lia | assumption | lia | now unfold m0]. }
  assert (Umx : mx < 2 ^ 106).
  { rewrite Emx. change (2 ^ 106) with (2 ^ 53 * 2 ^ 53).
    assert (n * V < 2 ^ 53).
    { rewrite <- HV', (Z.mul_comm n V).
      apply Z.mul_lt_mono_pos_l; lia. }
    apply Z.mul_lt_mono_nonneg; [lia | assumption | lia | now unfold m0]. }
  pose proof (Zdigits2_bounds mx ltac:(lia)) as BD.
  set (D := Zdigits2 mx) in *.
  assert (HD : 105 <= D <= 106).
  { split.
    - destruct (Z.leb_spec 105 D) as [|C]; [assumption|].
      assert (2 ^ D <= 2 ^ 104).
      { destruct (Z.leb_spec 0 D); [apply Z.pow_le_mono_r; lia|].
        rewrite Z.pow_neg_r by lia. lia. }
      lia.
    - destruct (Z.leb_spec D 106) as [|C]; [assumption|].
      assert (2 ^ 106 <= 2 ^ (D - 1)) by (apply Z.pow_le_mono_r; lia).
      lia. }
  pose proof (binary_round_aux_spec mx (d - 53 + -58) ltac:(lia)) as R.
  cbn zeta in R. fold D in R.
  destruct R as (m & e & m2 & -> & Bm2 & _ & Hde & Hm2 & _); try lia.
  cbn [int int_of_float]. f_equal.
  set (e0 := d - 53 + -58 + D - 53) in *.
  set (W := 2 ^ (D - 53)) in *.
  assert (HS : 0 < W <= 2 ^ 53).
  { split; [apply Z.pow_pos_nonneg; lia|].
    apply Z.pow_le_mono_r; lia. }
  set (T := 2 ^ (- e0)).
  assert (HT : 0 < T) by (apply Z.pow_pos_nonneg; unfold e0; lia).
  assert (HST : W * T = V * 2 ^ 58).
  { unfold W, T, V. rewrite <- !Z.pow_add_r by (unfold e0; lia).
    f_equal. unfold e0. lia. }
  set (k := n / 50).
  assert (Hk : 50 * k <= n <= 50 * k + 49).
  { unfold k. pose proof (Z.div_mod n 50 ltac:(lia)).
    pose proof (Z.mod_pos_bound n 50 ltac:(lia)). lia. }
  assert (Hk0 : 0 <= k) by lia.
  (* the rounded mantissa lies in the band of [k] *)
  assert (Low : k * T <= mx / W).
  { apply Z.div_le_lower_bound; [lia|].
    replace (W * (k * T)) with (V * (2 ^ 58 * k))
      by (transitivity (W * T * k); [rewrite HST|]; ring).
    rewrite Emx.
    replace (n * V * Zpos m0) with (V * (n * Zpos m0)) by ring.
    apply Z.mul_le_mono_nonneg_l; [lia|]. unfold m0. lia. }
  assert (Upp : mx / W + 1 < (k + 1) * T).
  { apply Z.mul_lt_mono_pos_l with (p := W); [lia|].
    pose proof (Z.mul_div_le mx W ltac:(lia)) as Hmd.
    replace (W * ((k + 1) * T)) with (V * (2 ^ 58 * (k + 1)))
      by (transitivity (W * T * (k + 1)); [rewrite HST|]; ring).
    assert (Hlin : n * Zpos m0 + (Zpos m0 - 6 * k - 6) <= 2 ^ 58 * (k + 1))
      by (unfold m0; lia).
    assert (Hbig : W < V * (Zpos m0 - 6 * k - 6)).
    { assert (2 ^ 32 <= Zpos m0 - 6 * k - 6) by (unfold m0; lia).
      assert (2 ^ 22 * 2 ^ 32 <= V * (Zpos m0 - 6 * k - 6))
        by (apply Z.mul_le_mono_nonneg; lia).
      change (2 ^ 22 * 2 ^ 32) with (2 ^ 54) in *.
      assert (2 ^ 53 < 2 ^ 54) by reflexivity. lia. }
    assert (Hmul : V * (n * Zpos m0 + (Zpos m0 - 6 * k - 6))
                   <= V * (2 ^ 58 * (k + 1)))
      by (apply Z.mul_le_mono_nonneg_l; lia).
    assert (Emx' : mx = V * (n * Zpos m0)) by (rewrite Emx; ring).
    rewrite Z.mul_add_distr_l in Hmul.
    rewrite Z.mul_add_distr_l, Z.mul_1_r.
    lia. }
  (* back from the mantissa to the integer part *)
  set (dl := e - e0) in *.
  assert (He : e = e0 + dl) by (unfold dl; lia).
  assert (Hele : e <= 0) by (unfold e0 in *; lia).
  rewrite Z.shiftl_div_pow2 by exact Hele.
  assert (HTT : T = 2 ^ (- e) * 2 ^ dl).
  { unfold T. rewrite <- Z.pow_add_r by lia. f_equal. lia. }
  assert (Hdl : 0 < 2 ^ dl) by (apply Z.pow_pos_nonneg; lia).
  assert (HTe : 0 < 2 ^ (- e)) by (apply Z.pow_pos_nonneg; lia).
  assert (L : k * 2 ^ (- e) <= Zpos m).
  { apply Z.mul_le_mono_pos_r with (p := 2 ^ dl); [exact Hdl|].
    rewrite <- Hm2, <- Z.mul_assoc, <- HTT. lia. }
  assert (U : Zpos m < (k + 1) * 2 ^ (- e)).
  { apply Z.mul_lt_mono_pos_r with (p := 2 ^ dl); [exact Hdl|].
    rewrite <- Hm2, <- Z.mul_assoc, <- HTT. lia. }
  symmetry. apply Z.div_unique with (r := Zpos m - k * 2 ^ (- e)); [|ring].
  left. lia.
Qed.
(** The bound on [n] is needed: far beyond the size of any image the excess
    of the literal over 1/50 adds up to the next integer. *)
Remark int_mul_0_02_large :
  (x <- float_of_int (50 * 10 ^ 15 + 49) ;;
   int (VFloat (float_mul x float_0_02))) = Ok (10 ^ 15 + 1) /\
  (50 * 10 ^ 15 + 49) / 50 = 10 ^ 15.
Proof. split; reflexivity. Qed.

End Binary64.

(** ** [validate_config] *)

Lemma max_step_div (width height : Z) :
  max_step width height = Z.max width height / 50.
Proof.
  unfold max_step. change 100 with (2 * 50).
  apply Z.div_mul_cancel_l; lia.
Qed.


Lemma library_raise_bind {T U : Type} (m : result exn T)
      (k : T -> result exn U) :
  library_raise m -> (forall t, library_raise (k t)) ->
  library_raise (bind m k).
Proof.
  intros Hm Hk e. destruct m as [t|e']; cbn [bind].
  - apply Hk.
  - intros [= <-]. now apply Hm.
Qed.

Lemma library_raise_raise {T : Type} (c : exn_class) :
  library_raise (raise c : result exn T).
Proof. intros e [= <-]. reflexivity. Qed.

Lemma library_raise_Ok {T : Type} (t : T) : library_raise (Ok t).
Proof. intros e [=]. Qed.

Lemma library_raise_int (x : value) : library_raise (int x).
Proof.
  destruct x as [| | |f|s| |]; cbn [int];
    try apply library_raise_raise; try apply library_raise_Ok.
  - destruct f; cbn [int_of_float];
      try apply library_raise_raise; apply library_raise_Ok.
  - destruct (int_of_str s);
      [apply library_raise_Ok | apply library_raise_raise].
Qed.

Lemma library_raise_float_of_int (n : Z) : library_raise (float_of_int n).
Proof.
  unfold float_of_int.
  destruct (binary_normalize prec emax n 0 false);
    try apply library_raise_Ok; apply library_raise_raise.
Qed.

Section ValidateFacts.
Context {A : Type}.
Variable image_files : string -> entry A.

(** The first two steps: both keys are there and the step is an [int]. *)
Lemma validate_config_keys (config numpy_basics image_path step_str : value)
      (step : Z) :
  getitem config "numpy_basics" = Ok numpy_basics ->
  getitem numpy_basics "image_path" = Ok image_path ->
  getitem numpy_basics "step" = Ok step_str ->
  int step_str = Ok step ->
  validate_config image_files config
  = (max_step_value <-
       try_except
         (image <- Image_open image_files image_path ;;
          let '(width, height) := size image in
          x <- float_of_int (Z.max width height) ;;
          int (VFloat (float_mul x float_0_02)))
         (isinstance FileNotFoundError)
         (fun _ => Raise (Exn FileNotFoundError
                            (image_file_not_found image_path))) ;;
     if (step <? 1) || (step >? max_step_value)
     then Raise (Exn ValueError (step_not_in_range max_step_value step))
     else Ok (image_path, step)).
Proof.
  intros H1 H2 H3 H4. unfold validate_config.
  rewrite H1. cbn [bind]. rewrite H2. cbn [bind]. rewrite H3.
  cbn [bind try_except]. rewrite H4. reflexivity.
Qed.

(** The bound the program computes in binary64 is the specification's
    [max_step] for every image PIL can hold, whose sizes are C [int]s. *)
Lemma max_step_value_eq (path : string) (a : ndarray A) :
  image_files path = an_image a ->
  Z.of_nat (ncols a) < 2 ^ 31 -> Z.of_nat (nrows a) < 2 ^ 31 ->
  try_except
    (image <- Image_open image_files (VStr path) ;;
     let '(width, height) := size image in
     x <- float_of_int (Z.max width height) ;;
     int (VFloat (float_mul x float_0_02)))
    (isinstance FileNotFoundError)
    (fun _ => Raise (Exn FileNotFoundError
                       (image_file_not_found (VStr path))))
  = Ok (max_step (Z.of_nat (ncols a)) (Z.of_nat (nrows a))).
Proof.
  intros Hfile Hw Hh. unfold Image_open. rewrite Hfile.
  cbn [bind size np_array]. rewrite int_mul_0_02 by lia.
  now rewrite max_step_div.
Qed.

(** C4, as amended. For a configuration with both keys, a step that
    coerces to an integer and an image file of [width] x [height] pixels
    (each below 2^31), [validate_config] raises the out-of-range
    ValueError iff [step < 1] or [step > max_step], with
    [max_step = floor(0.02 * max(width, height))], and returns the path
    and the step otherwise; [step = max_step] succeeds when
    [max_step >= 1], and [step = max_step + 1] is out of range. *)
Theorem validate_config_step_range
        (config numpy_basics step_str : value) (path : string)
        (step : Z) (a : ndarray A) :
  getitem config "numpy_basics" = Ok numpy_basics ->
  getitem numpy_basics "image_path" = Ok (VStr path) ->
  getitem numpy_basics "step" = Ok step_str ->
  int step_str = Ok step ->
  image_files path = an_image a ->
  Z.of_nat (ncols a) < 2 ^ 31 -> Z.of_nat (nrows a) < 2 ^ 31 ->
  let bound := max_step (Z.of_nat (ncols a)) (Z.of_nat (nrows a)) in
  ((exists e, validate_config image_files config = Raise e /\
              failure_kind e = Some StepOutOfRange)
   <-> step < 1 \/ step > bound) /\
  (step < 1 \/ step > bound ->
   validate_config image_files config
   = Raise (Exn ValueError (step_not_in_range bound step))) /\
  (1 <= step <= bound ->
   validate_config image_files config = Ok (VStr path, step)) /\
  (step = bound -> 1 <= bound ->
   validate_config image_files config = Ok (VStr path, step)) /\
  (step = bound + 1 ->
   validate_config image_files config
   = Raise (Exn ValueError (step_not_in_range bound step))).
Proof.
  intros H1 H2 H3 H4 Hfile Hw Hh ms.
  rewrite (validate_config_keys _ _ _ _ _ H1 H2 H3 H4).
  rewrite (max_step_value_eq path a Hfile Hw Hh). fold ms. cbn [bind].
  assert (Out : step < 1 \/ step > ms ->
                (step <? 1) || (step >? ms) = true).
  { intros [C|C]; apply orb_true_iff; [left; lia | right; lia]. }
  assert (In : 1 <= step <= ms -> (step <? 1) || (step >? ms) = false).
  { intros C. apply orb_false_iff. lia. }
  split; [split|].
  - intros (e & He & Hk).
    destruct (Z.ltb_spec step 1) as [|C1]; [now left|].
    destruct (Z.ltb_spec ms step) as [|C2]; [right; lia|].
    rewrite In in He by lia. discriminate He.
  - intros C. rewrite Out by exact C. eexists. split; reflexivity.
  - split; [intros C; now rewrite Out|].
    split; [intros C; now rewrite In|].
    split; [intros -> C; now rewrite In by lia|].
    intros C. rewrite Out by lia. reflexivity.
Qed.



Lemma getitem_make_config (image_path step : value) :
  getitem (make_config image_path step) "numpy_basics"
  = Ok (VDict [(VStr "image_path", image_path); (VStr "step", step)]) /\
  getitem (VDict [(VStr "image_path", image_path); (VStr "step", step)])
          "image_path" = Ok image_path /\
  getitem (VDict [(VStr "image_path", image_path); (VStr "step", step)])
          "step" = Ok step.
Proof. repeat split. Qed.

(** What [validate_config] does after the coercion depends on the step's
    integer only. *)
Lemma validate_config_int (image_path step_str : value) (step : Z) :
  int step_str = Ok step ->
  validate_config image_files (make_config image_path step_str)
  = validate_config image_files (make_config image_path (VInt step)).
Proof.
  intros H.
  destruct (getitem_make_config image_path step_str) as (G1 & G2 & G3).
  destruct (getitem_make_config image_path (VInt step)) as (I1 & I2 & I3).
  rewrite (validate_config_keys _ _ _ _ _ G1 G2 G3 H).
  now rewrite (validate_config_keys _ _ _ _ step I1 I2 I3).
Qed.

Lemma library_raise_Image_open (fp : value) :
  library_raise (Image_open image_files fp).
Proof.
  destruct fp as [| | | |path| |]; cbn [Image_open];
    try apply library_raise_raise.
  destruct (image_files path); [apply library_raise_Ok|].
  destruct (has_nul path); apply library_raise_raise.
Qed.

(** Once the keys are found and the step is coerced, no InvalidConfig is
    left to raise. *)
Lemma validate_config_coerced (image_path : value) (step : Z) (e : exn) :
  validate_config image_files (make_config image_path (VInt step))
  = Raise e ->
  failure_kind e <> Some InvalidConfig.
Proof.
  destruct (getitem_make_config image_path (VInt step)) as (I1 & I2 & I3).
  rewrite (validate_config_keys _ _ _ _ step I1 I2 I3) by reflexivity.
  match goal with
  | |- context [try_except ?m _ _] =>
      assert (L : library_raise m); [|destruct m as [ms|e0]]
  end.
  { apply library_raise_bind; [apply library_raise_Image_open|].
    intros image. destruct (size image) as [width height].
    apply library_raise_bind; [apply library_raise_float_of_int|].
    intros x. apply library_raise_int. }
  - cbn [try_except bind].
    destruct ((step <? 1) || (step >? ms)); intros [= <-]; discriminate.
  - cbn [try_except bind].
    destruct (isinstance FileNotFoundError e0); intros [= <-].
    + discriminate.
    + unfold failure_kind. rewrite (L e0 eq_refl).
      destruct (class e0); discriminate.
Qed.

(** C9. A step given as a number with a fraction is not refused: [int]
    cuts it towards zero (the integer part of its magnitude, with its
    sign), it is validated as that integer (2.5 as 2), and no InvalidConfig
    is raised; the string "2.5" does not coerce and raises the
    not-an-integer ValueError. *)
Theorem step_coercion_asymmetric (image_path : value) :
  int (VFloat float_2_5) = Ok 2 /\
  validate_config image_files (make_config image_path (VFloat float_2_5))
  = validate_config image_files (make_config image_path (VInt 2)) /\
  (forall (s : bool) (m : positive) (e : Z),
      let magnitude := Z.shiftl (Zpos m) e in
      let z := if s then - magnitude else magnitude in
      int (VFloat (S754_finite s m e)) = Ok z /\
      (0 <= magnitude /\
       magnitude * 2 ^ Z.max 0 (- e) <= Zpos m * 2 ^ Z.max 0 e
       < (magnitude + 1) * 2 ^ Z.max 0 (- e)) /\
      validate_config image_files
                      (make_config image_path (VFloat (S754_finite s m e)))
      = validate_config image_files (make_config image_path (VInt z)) /\
      forall err,
        validate_config image_files
                        (make_config image_path (VFloat (S754_finite s m e)))
        = Raise err ->
        failure_kind err <> Some InvalidConfig) /\
  int (VStr "2.5") = raise ValueError /\
  validate_config image_files (make_config image_path (VStr "2.5"))
  = Raise (Exn ValueError (step_not_an_integer (VStr "2.5"))) /\
  failure_kind (Exn ValueError (step_not_an_integer (VStr "2.5")))
  = Some InvalidConfig.
Proof.
  split; [reflexivity|].
  split; [now apply validate_config_int|].
  split.
  { intros s m e magnitude z. split; [reflexivity|].
    split; [apply shiftl_integer_part|].
    assert (E : validate_config image_files
                  (make_config image_path (VFloat (S754_finite s m e)))
                = validate_config image_files
                    (make_config image_path (VInt z)))
      by now apply validate_config_int.
    split; [exact E|].
    intros err. rewrite E. apply validate_config_coerced. }
  split; [reflexivity|]. split; reflexivity.
Qed.
End ValidateFacts.

(** C4 as the specification words it, [step = max_step] always valid,
    fails: for an image of 3 x 3 pixels the bound [max_step] is 0, and the
    step 0, which equals it, is out of range. *)
Lemma validate_config_max_step_counterexample :
  max_step 3 3 = 0 /\
  validate_config (fun _ => an_image buffer_3x3)
                  (make_config (VStr "image.png") (VInt 0))
  = Raise (Exn ValueError (step_not_in_range 0 0)) /\
  failure_kind (Exn ValueError (step_not_in_range 0 0)) = Some StepOutOfRange.
Proof. repeat split. Qed.


(** ** A validated step larger than the image's smaller side *)

Section ShortSide.
Context {A : Type}.

(** A buffer with fewer rows than [step] is aligned to no row at all. *)
Lemma adjust_image_size_short (step : Z) (a : ndarray A) :
  Z.of_nat (nrows a) < step ->
  exists a', adjust_image_size step a = Ok a' /\
             nrows a' = 0%nat /\ pixels a' = [] /\
             Z.of_nat (ncols a') = Z.of_nat (ncols a) / step * step.
Proof.
  intros H. rewrite adjust_image_size_eq by lia.
  eexists. split; [reflexivity|].
  rewrite Z.div_small by lia.
  split; [|split].
  - rewrite nrows_slice2. reflexivity.
  - reflexivity.
  - cbn [slice2 ncols]. apply slice_stop_floor. lia.
Qed.
End ShortSide.

(** C8. Validation accepts steps that exceed the image's smaller side: an
    image 1000 pixels wide and 10 high has [max_step = 20]; the step 20 is
    accepted; [adjust_image_size] then keeps none of the 10 rows, and
    [cut_image] and [process_image] work on, and return, buffers without a
    pixel. *)
Theorem validated_step_empties_buffer :
  let image_files := fun _ : string => an_image buffer_10x1000 in
  size (fromarray buffer_10x1000) = (1000, 10) /\
  max_step 1000 10 = 20 /\
  validate_config image_files (make_config (VStr "image.png") (VInt 20))
  = Ok (VStr "image.png", 20) /\
  Z.min 1000 10 < 20 /\
  exists base vertical horizontal composite,
    adjust_image_size 20 buffer_10x1000 = Ok base /\
    shape base = [0; 1000]%nat /\ pixels base = [] /\
    cut_image 20 base COLUMNS = Ok (fromarray vertical) /\
    pixels vertical = [] /\
    cut_image 20 vertical ROWS = Ok (fromarray horizontal) /\
    pixels horizontal = [] /\
    process_image image_files 20 (VStr "image.png")
    = Ok (fromarray composite) /\
    shape composite = [0; 1000]%nat /\ pixels composite = [].
Proof.
  intros image_files.
  split; [reflexivity|]. split; [reflexivity|].
  split; [vm_compute; reflexivity|]. split; [reflexivity|].
  exists {| ncols := 1000; trailing := []; rows := [] |},
         {| ncols := 1000; trailing := []; rows := [] |},
         {| ncols := 1000; trailing := []; rows := [] |},
         {| ncols := 1000; trailing := []; rows := [] |}.
  repeat split; vm_compute; reflexivity.
Qed.

(** ** Failures outside the taxonomy *)

(** C10. A configuration whose [numpy_basics] is not a mapping, or whose
    step is None, makes [validate_config] raise a TypeError: it is none of
    the four typed failures, and [main], which handles FileNotFoundError and
    ValueError only, lets it through. *)
Theorem type_error_escapes {A : Type}
        (image_files : string -> entry A) :
  let e := Exn TypeError by_library in
  (forall v, (forall d, v <> VDict d) ->
             validate_config image_files (VDict [(VStr "numpy_basics", v)])
             = Raise e) /\
  validate_config image_files (VDict [(VStr "numpy_basics", VInt 5)])
  = Raise e /\
  (forall image_path,
      validate_config image_files (make_config image_path VNone) = Raise e) /\
  failure_kind e = None /\
  isinstance FileNotFoundError e || isinstance ValueError e = false /\
  main image_files (fun _ => Some (VDict [(VStr "numpy_basics", VInt 5)]))
  = uncaught e /\
  (forall image_path,
      main image_files (fun _ => Some (make_config image_path VNone))
      = uncaught e).
Proof.
  intros e.
  split.
  { intros v Hv. destruct v; try reflexivity. now destruct (Hv d). }
  repeat split.
Qed.

(** * The theorems at concrete inputs *)

Lemma wf_buffer_4x6 : wf buffer_4x6.
Proof. repeat constructor. Defined.

Lemma wf_buffer_3x3 : wf buffer_3x3.
Proof. repeat constructor. Defined.

Lemma wf_buffer_2x3 : wf buffer_2x3.
Proof. repeat constructor. Defined.

(** The 4 x 6 buffer aligned for step 4 is its top-left 4 x 4 crop. *)
Lemma adjust_image_size_crop_witness :
  exists a',
    adjust_image_size 4 buffer_4x6 = Ok a' /\
    Z.of_nat (nrows a') = 4 /\ Z.of_nat (ncols a') = 4 /\
    (4 | Z.of_nat (ncols a')) /\
    6 - 4 < Z.of_nat (ncols a') <= 6.
Proof.
  destruct (adjust_image_size_crop 4 buffer_4x6)
    as (a' & E & _ & Hh & Hw & _ & Dw & _ & Bw & _).
  - lia.
  - exact wf_buffer_4x6.
  - exists a'. repeat split; try assumption; apply Bw.
Defined.

(** The rows of the 4 x 6 buffer for step 1: rows 0 and 2, then 1 and 3. *)
Lemma cut_image_stable_partition_witness :
  exists aligned,
    adjust_image_size 1 buffer_4x6 = Ok aligned /\
    cut_image 1 buffer_4x6 ROWS
    = Ok (fromarray
            (select_along ROWS
               (even_group 1 (extent ROWS aligned)
                  ++ odd_group 1 (extent ROWS aligned)) aligned)) /\
    Permutation (even_group 1 (extent ROWS aligned)
                   ++ odd_group 1 (extent ROWS aligned))
                (seq 0 (extent ROWS aligned)).
Proof.
  destruct (cut_image_stable_partition 1 ROWS buffer_4x6)
    as (al & E & C & _ & _ & _ & _ & P & _).
  - lia.
  - exact wf_buffer_4x6.
  - exists al. repeat split; assumption.
Defined.

Lemma process_image_composite_witness :
  exists composite,
    process_image (fun _ => an_image buffer_4x6) 2 (VStr "image.png")
    = Ok (fromarray composite) /\
    Z.of_nat (nrows composite) = 3 * (4 / 2 * 2) /\
    Z.of_nat (ncols composite) = 6 / 2 * 2.
Proof.
  destruct (process_image_composite (fun _ => an_image buffer_4x6) 2
                                    "image.png" buffer_4x6)
    as (b & v & h & c & _ & _ & _ & _ & P & _ & Hh & Hw & _).
  - lia.
  - reflexivity.
  - exact wf_buffer_4x6.
  - exists c. repeat split; assumption.
Defined.

(** For the image 1000 wide and 10 high the steps 1 to 20 are in range. *)
Lemma validate_config_step_range_witness :
  validate_config (fun _ => an_image buffer_10x1000)
                  (make_config (VStr "image.png") (VStr " 20 "))
  = Ok (VStr "image.png", 20).
Proof.
  assert (Hw : Z.of_nat (ncols buffer_10x1000) < 2 ^ 31) by reflexivity.
  assert (Hh : Z.of_nat (nrows buffer_10x1000) < 2 ^ 31) by reflexivity.
  pose proof (validate_config_step_range
                (fun _ => an_image buffer_10x1000)
                (make_config (VStr "image.png") (VStr " 20 "))
                (VDict [(VStr "image_path", VStr "image.png");
                        (VStr "step", VStr " 20 ")])
                (VStr " 20 ") "image.png" 20 buffer_10x1000
                eq_refl eq_refl eq_refl eq_refl eq_refl Hw Hh)
    as (_ & _ & H & _).
  apply H. vm_compute. split; discriminate.
Defined.

Lemma cut_image_preserves_aligned_witness :
  exists al out,
    adjust_image_size 2 buffer_3x3 = Ok al /\
    cut_image 2 buffer_3x3 COLUMNS = Ok out /\
    pixel_count (np_array out) = pixel_count al /\
    Permutation (pixels (np_array out)) (pixels al).
Proof.
  destruct (cut_image_preserves_aligned 2 COLUMNS buffer_3x3)
    as (al & out & E & C & _ & N & _ & _ & P & _).
  - lia.
  - exact wf_buffer_3x3.
  - exists al, out. repeat split; assumption.
Defined.

(** The 2 x 3 buffer has one band of rows for step 2. *)
Lemma cut_image_single_band_witness :
  exists al,
    adjust_image_size 2 buffer_2x3 = Ok al /\
    odd_group 2 (extent ROWS al) = [] /\
    cut_image 2 buffer_2x3 ROWS = Ok (fromarray al).
Proof.
  destruct (cut_image_single_band 2 ROWS buffer_2x3)
    as (al & E & _ & _ & O & C & _).
  - lia.
  - exact wf_buffer_2x3.
  - reflexivity.
  - exists al. repeat split; assumption.
Defined.


(* ===================================================================== *)
(** * Further properties of the program *)

(** ** [adjust_image_size] on any step *)

Section AdjustMore.
Context {A : Type}.
Implicit Types (a b image : ndarray A).

(** A slice that reaches the end of both axes is the buffer itself. *)
Lemma slice2_fixed (h w : Z) a :
  wf a ->
  slice_stop h (nrows a) = nrows a -> slice_stop w (ncols a) = ncols a ->
  slice2 h w a = a.
Proof.
  intros Hwf Hh Hw. destruct a as [nc t rs]. unfold slice2, nrows, wf in *.
  cbn [rows ncols trailing] in *. f_equal; [exact Hw|].
  unfold slice_to at 2. rewrite Hh, firstn_all.
  rewrite <- (map_id rs) at 2. apply map_ext_in. intros r Hr.
  rewrite Forall_forall in Hwf. unfold slice_to.
  rewrite (Hwf r Hr), Hw, <- (Hwf r Hr). apply firstn_all.
Qed.

(** For a negative step the floor of the quotient rounds the product up. *)
Lemma floor_multiple_negative (n step : Z) :
  step <= -1 -> 0 <= n -> n <= n / step * step.
Proof.
  intros Hs Hn.
  pose proof (Z.div_mod n step ltac:(lia)) as E.
  pose proof (Z.mod_neg_bound n step ltac:(lia)) as B.
  lia.
Qed.

Lemma slice_stop_beyond (stop : Z) (n : nat) :
  Z.of_nat n <= stop -> slice_stop stop n = n.
Proof. intros H. rewrite slice_stop_nonneg by lia. lia. Qed.

Lemma adjust_image_size_negative (step : Z) a :
  step <= -1 -> wf a -> adjust_image_size step a = Ok a.
Proof.
  intros Hs Hwf. rewrite adjust_image_size_eq by lia. f_equal.
  apply slice2_fixed; [exact Hwf| |];
    apply slice_stop_beyond, floor_multiple_negative; lia.
Qed.

(** What [adjust_image_size] returns it leaves alone, whatever the step. *)
Lemma adjust_image_size_stable (step : Z) a al :
  wf a -> adjust_image_size step a = Ok al ->
  wf al /\ adjust_image_size step al = Ok al.
Proof.
  intros Hwf E.
  destruct (Z.eq_dec step 0) as [->|Hs0]; [discriminate E|].
  destruct (Z.le_gt_cases 1 step) as [Hs|Hs].
  - rewrite adjust_image_size_eq in E by lia. injection E as <-.
    split; [apply wf_slice2, Hwf|].
    apply adjust_image_size_aligned;
      [exact Hs | apply wf_slice2, Hwf | apply aligned_adjust, Hs].
  - rewrite adjust_image_size_negative in E by (assumption || lia).
    injection E as <-. split; [exact Hwf|].
    apply adjust_image_size_negative; [lia | exact Hwf].
Qed.

(** Whether a buffer is left alone depends on its height and width only. *)
Lemma adjust_image_size_same_shape (step : Z) a b :
  wf a -> wf b -> nrows b = nrows a -> ncols b = ncols a ->
  adjust_image_size step a = Ok a -> adjust_image_size step b = Ok b.
Proof.
  intros Wa Wb Hr Hc E.
  destruct (Z.eq_dec step 0) as [->|Hs0]; [discriminate E|].
  rewrite adjust_image_size_eq in * by exact Hs0.
  injection E as E.
  pose proof (f_equal nrows E) as Er. rewrite nrows_slice2 in Er.
  pose proof (f_equal ncols E) as Ec. cbn [slice2 ncols] in Ec.
  rewrite Hr, Hc. f_equal.
  apply slice2_fixed; [exact Wb| |]; congruence.
Qed.

(** X1. Aligning is idempotent: for every step but 0 the buffer
    [adjust_image_size] returns is returned as it is by a second call. *)
Theorem adjust_image_size_idempotent (step : Z) a :
  step <> 0 -> wf a ->
  exists al, adjust_image_size step a = Ok al /\
             adjust_image_size step al = Ok al.
Proof.
  intros Hs Hwf.
  pose proof (adjust_image_size_eq step a Hs) as E.
  eexists. split; [exact E|].
  now apply (adjust_image_size_stable step a).
Qed.

(** X2. A negative step crops nothing: [adjust_image_size] returns the
    buffer as it is. *)
Theorem adjust_image_size_negative_step (step : Z) a :
  step <= -1 -> wf a ->
  adjust_image_size step a = Ok a /\
  Z.of_nat (nrows a) <= Z.of_nat (nrows a) / step * step /\
  Z.of_nat (ncols a) <= Z.of_nat (ncols a) / step * step.
Proof.
  intros Hs Hwf. split; [now apply adjust_image_size_negative|].
  split; apply floor_multiple_negative; lia.
Qed.

End AdjustMore.

(** ** [cut_image] and [process_image] on any step *)

Section CutMore.
Context {A : Type}.
Variable image_files : string -> entry A.
Implicit Types (a b image : ndarray A).

(** On a buffer that aligning leaves alone, [cut_image] is the selection of
    the partition's order. *)
Lemma cut_image_stable (step : Z) (ax : axis) a :
  wf a -> adjust_image_size step a = Ok a ->
  cut_image step a ax
  = Ok (fromarray (select_along ax (interleave_order step (extent ax a)) a)).
Proof.
  intros Hwf E. unfold cut_image. rewrite E. cbn [bind].
  pose proof (cut_aligned step ax a Hwf) as C. cbn zeta in C.
  destruct ax.
  - destruct (mask_rows a (band_mask step (extent ROWS a))) as [m1|e1];
      [|discriminate C]. cbn [bind] in *.
    destruct (mask_rows a (map negb (band_mask step (extent ROWS a))))
      as [m2|e2]; [|discriminate C]. cbn [bind] in *.
    now rewrite C.
  - destruct (mask_cols a (band_mask step (extent COLUMNS a))) as [m1|e1];
      [|discriminate C]. cbn [bind] in *.
    destruct (mask_cols a (map negb (band_mask step (extent COLUMNS a))))
      as [m2|e2]; [|discriminate C]. cbn [bind] in *.
    now rewrite C.
Qed.

Lemma cut_image_nonzero (step : Z) (ax : axis) a :
  step <> 0 -> wf a ->
  exists al,
    adjust_image_size step a = Ok al /\ wf al /\
    adjust_image_size step al = Ok al /\
    cut_image step a ax
    = Ok (fromarray (select_along ax (interleave_order step (extent ax al)) al)).
Proof.
  intros Hs Hwf.
  pose proof (adjust_image_size_eq step a Hs) as E.
  set (al := slice2 _ _ a) in E.
  destruct (adjust_image_size_stable step a al Hwf E) as [Wal Sal].
  exists al. repeat (split; [assumption|]).
  rewrite <- (cut_image_stable step ax al Wal Sal).
  unfold cut_image. now rewrite E, Sal.
Qed.

Lemma cut_image_zero (ax : axis) a :
  cut_image 0 a ax = raise ZeroDivisionError.
Proof. reflexivity. Qed.

(** Selecting along an axis keeps a buffer one that aligning leaves alone. *)
Lemma select_along_stable (step : Z) (ax : axis) a :
  wf a -> adjust_image_size step a = Ok a ->
  let b := select_along ax (interleave_order step (extent ax a)) a in
  wf b /\ adjust_image_size step b = Ok b.
Proof.
  intros Hwf E b. assert (Wb : wf b) by now apply wf_select_along.
  split; [exact Wb|].
  apply (adjust_image_size_same_shape step a b); try assumption.
  - apply nrows_select_along.
  - apply ncols_select_along.
Qed.

(** The whole of [process_image] on an image file, for a step other
    than 0. *)
Lemma process_image_nonzero (step : Z) (path : string) a :
  step <> 0 -> image_files path = an_image a -> wf a ->
  exists base composite,
    adjust_image_size step a = Ok base /\
    process_image image_files step (VStr path) = Ok (fromarray composite) /\
    wf composite /\
    nrows composite = (3 * nrows base)%nat /\
    ncols composite = ncols base /\
    trailing composite = trailing a.
Proof.
  intros Hs Hfile Hwf.
  pose proof (adjust_image_size_eq step a Hs) as E.
  set (base := slice2 _ _ a) in E.
  destruct (adjust_image_size_stable step a base Hwf E) as [Wb Sb].
  set (vertical := select_along COLUMNS
                     (interleave_order step (extent COLUMNS base)) base).
  destruct (select_along_stable step COLUMNS base Wb Sb) as [Wv Sv].
  fold vertical in Wv, Sv.
  set (horizontal := select_along ROWS
                       (interleave_order step (extent ROWS vertical))
                       vertical).
  destruct (select_along_stable step ROWS vertical Wv Sv) as [Wh _].
  fold horizontal in Wh.
  assert (Nv : ncols vertical = ncols base) by apply ncols_select_along.
  assert (Nh : ncols horizontal = ncols base).
  { unfold horizontal. now rewrite ncols_select_along. }
  assert (Rv : nrows vertical = nrows base) by apply nrows_select_along.
  assert (Rh : nrows horizontal = nrows base).
  { unfold horizontal. now rewrite nrows_select_along. }
  assert (Tv : trailing vertical = trailing base)
    by apply trailing_select_along.
  assert (Th : trailing horizontal = trailing base).
  { unfold horizontal. now rewrite trailing_select_along. }
  set (composite := {| ncols := ncols base; trailing := trailing base;
                       rows := (rows base ++ rows vertical)
                                 ++ rows horizontal |}).
  assert (Cc : concatenate [base; vertical; horizontal] ROWS = Ok composite).
  { assert (C1 : concatenate2 ROWS base vertical
                 = Ok {| ncols := ncols base; trailing := trailing base;
                         rows := rows base ++ rows vertical |}).
    { unfold concatenate2.
      now rewrite Tv, trailing_eq_refl, Nv, Nat.eqb_refl. }
    unfold concatenate. cbn [fold_left bind]. rewrite C1. cbn [bind].
    unfold concatenate2. cbn [trailing ncols rows].
    now rewrite Th, trailing_eq_refl, Nh, Nat.eqb_refl. }
  exists base, composite.
  split; [exact E|].
  split.
  { unfold process_image, Image_open. rewrite Hfile.
    cbn [try_except bind np_array]. rewrite E. cbn [bind].
    rewrite (cut_image_stable step COLUMNS base Wb Sb). fold vertical.
    cbn [bind np_array].
    rewrite (cut_image_stable step ROWS vertical Wv Sv). fold horizontal.
    cbn [bind np_array]. rewrite Cc. reflexivity. }
  split.
  { unfold wf in *. cbn [composite rows ncols].
    rewrite !Forall_app. rewrite Nv in Wv. rewrite Nh in Wh. auto. }
  split.
  { unfold nrows at 1. cbn [composite rows]. rewrite !length_app.
    fold (nrows base) (nrows vertical) (nrows horizontal). lia. }
  split; reflexivity.
Qed.

(** X3. On a rectangular buffer, and for a step that an int64 holds (the
    integers NumPy divides by), [cut_image] fails for the step 0 only, with
    the ZeroDivisionError of the first division; for every other such
    step, negative ones too, it returns an image of the aligned buffer's
    shape. *)
Theorem cut_image_fails_iff_zero_step (step : Z) (ax : axis) a :
  - 2 ^ 63 <= step < 2 ^ 63 ->
  wf a ->
  ((exists e, cut_image step a ax = Raise e) <-> step = 0) /\
  (step = 0 -> cut_image step a ax = raise ZeroDivisionError) /\
  (step <> 0 ->
   exists al out,
     adjust_image_size step a = Ok al /\
     cut_image step a ax = Ok out /\
     wf (np_array out) /\ shape (np_array out) = shape al).
Proof.
  intros _ Hwf.
  assert (Good : step <> 0 ->
                 exists al out,
                   adjust_image_size step a = Ok al /\
                   cut_image step a ax = Ok out /\
                   wf (np_array out) /\ shape (np_array out) = shape al).
  { intros Hs.
    destruct (cut_image_nonzero step ax a Hs Hwf) as (al & E & Wal & _ & C).
    eexists al, _. split; [exact E|]. split; [exact C|]. cbn [np_array].
    split; [apply wf_select_along, Wal | apply shape_select_along]. }
  split; [split|split].
  - intros (e & He). destruct (Z.eq_dec step 0) as [|Hs]; [assumption|].
    destruct (Good Hs) as (al & out & _ & C & _). congruence.
  - intros ->. eexists. apply cut_image_zero.
  - intros ->. apply cut_image_zero.
  - exact Good.
Qed.

(** X4. On an image file that is there, and for a step that an int64 holds
    (the integers NumPy divides by), [process_image] fails for the step 0
    only, with a ZeroDivisionError; for every other such step it returns a
    rectangular composite three aligned heights tall. *)
Theorem process_image_fails_iff_zero_step (step : Z) (path : string) a :
  - 2 ^ 63 <= step < 2 ^ 63 ->
  image_files path = an_image a -> wf a ->
  ((exists e, process_image image_files step (VStr path) = Raise e)
   <-> step = 0) /\
  (step = 0 ->
   process_image image_files step (VStr path) = raise ZeroDivisionError) /\
  (step <> 0 ->
   exists base composite,
     adjust_image_size step a = Ok base /\
     process_image image_files step (VStr path) = Ok (fromarray composite) /\
     wf composite /\
     nrows composite = (3 * nrows base)%nat /\
     ncols composite = ncols base).
Proof.
  intros _ Hfile Hwf.
  assert (Zero : process_image image_files 0 (VStr path)
                 = raise ZeroDivisionError).
  { unfold process_image, Image_open. rewrite Hfile. reflexivity. }
  assert (Good : step <> 0 ->
     exists base composite,
       adjust_image_size step a = Ok base /\
       process_image image_files step (VStr path) = Ok (fromarray composite) /\
       wf composite /\
       nrows composite = (3 * nrows base)%nat /\
       ncols composite = ncols base).
  { intros Hs.
    destruct (process_image_nonzero step path a Hs Hfile Hwf)
      as (base & c & E & P & W & R & C & _).
    exists base, c. auto. }
  split; [split|split].
  - intros (e & He). destruct (Z.eq_dec step 0) as [|Hs]; [assumption|].
    destruct (Good Hs) as (b & c & _ & P & _). congruence.
  - intros ->. eexists. exact Zero.
  - intros ->. exact Zero.
  - exact Good.
Qed.

(** The array operations raise, if at all, with a library's text. *)
Lemma library_raise_adjust (step : Z) a :
  library_raise (adjust_image_size step a).
Proof.
  unfold adjust_image_size, floordiv.
  destruct (step =? 0); [apply library_raise_raise | apply library_raise_Ok].
Qed.

Lemma library_raise_mask_rows a (mask : list bool) :
  library_raise (mask_rows a mask).
Proof.
  unfold mask_rows. destruct (Nat.eqb _ _);
    [apply library_raise_Ok | apply library_raise_raise].
Qed.

Lemma library_raise_mask_cols a (mask : list bool) :
  library_raise (mask_cols a mask).
Proof.
  unfold mask_cols. destruct (Nat.eqb _ _);
    [apply library_raise_Ok | apply library_raise_raise].
Qed.

Lemma library_raise_concatenate2 (ax : axis) a b :
  library_raise (concatenate2 ax a b).
Proof.
  unfold concatenate2. destruct (negb _); [apply library_raise_raise|].
  destruct ax; destruct (Nat.eqb _ _);
    apply library_raise_Ok || apply library_raise_raise.
Qed.

Lemma library_raise_concatenate (arrays : list (ndarray A)) (ax : axis) :
  library_raise (concatenate arrays ax).
Proof.
  destruct arrays as [|a rest]; [apply library_raise_raise|].
  cbn [concatenate].
  assert (G : forall init, library_raise init ->
              library_raise
                (fold_left (fun acc b => c <- acc ;; concatenate2 ax c b)
                           rest init)).
  { induction rest as [|b rest IH]; intros init Hi; [exact Hi|].
    cbn [fold_left]. apply IH. apply library_raise_bind; [exact Hi|].
    intros c. apply library_raise_concatenate2. }
  apply G, library_raise_Ok.
Qed.

Lemma library_raise_cut_image (step : Z) (ax : axis) a :
  library_raise (cut_image step a ax).
Proof.
  unfold cut_image.
  apply library_raise_bind; [apply library_raise_adjust|]. intros al.
  apply library_raise_bind.
  { destruct ax; [apply library_raise_mask_rows
                 | apply library_raise_mask_cols]. }
  intros m1. apply library_raise_bind.
  { destruct ax; [apply library_raise_mask_rows
                 | apply library_raise_mask_cols]. }
  intros m2. apply library_raise_bind; [apply library_raise_concatenate|].
  intros r. apply library_raise_Ok.
Qed.


End CutMore.

(** ** The order of the bands *)

Lemma gather_map {X Y : Type} (f : X -> Y) (idxs : list nat) (xs : list X) :
  gather idxs (map f xs) = map f (gather idxs xs).
Proof.
  unfold gather. induction idxs as [|i idxs IH]; [reflexivity|].
  cbn [flat_map]. rewrite map_app, IH, nth_error_map.
  now destruct (nth_error xs i).
Qed.

Lemma band_index (step : Z) (k i : nat) :
  1 <= step ->
  Z.of_nat k * step <= Z.of_nat i < (Z.of_nat k + 1) * step ->
  Z.of_nat i / step = Z.of_nat k.
Proof.
  intros Hs Hi. symmetry.
  apply Z.div_unique with (r := Z.of_nat i - Z.of_nat k * step); lia.
Qed.

(** With at most two bands the even band is in front already. *)
Lemma interleave_order_two_bands (step : Z) (n : nat) :
  1 <= step -> Z.of_nat n <= 2 * step -> interleave_order step n = seq 0 n.
Proof.
  intros Hs Hn.
  set (m := Nat.min n (Z.to_nat step)).
  replace n with (m + (n - m))%nat by lia.
  unfold interleave_order, even_group, odd_group.
  rewrite seq_app, !filter_app. cbn [Nat.add].
  rewrite (filter_all (even_band step) (seq 0 m)).
  2:{ intros i Hi. apply in_seq in Hi. apply even_band_first. lia. }
  rewrite (filter_none (fun i => negb (even_band step i)) (seq 0 m)).
  2:{ intros i Hi. apply in_seq in Hi. rewrite even_band_first by lia.
      reflexivity. }
  assert (Odd : forall i, In i (seq m (n - m)) -> even_band step i = false).
  { intros i Hi. apply in_seq in Hi. unfold even_band.
    rewrite (band_index step 1 i) by lia. reflexivity. }
  rewrite (filter_none (even_band step) (seq m (n - m))) by exact Odd.
  rewrite (filter_all (fun i => negb (even_band step i)) (seq m (n - m))).
  2:{ intros i Hi. now rewrite Odd. }
  now rewrite app_nil_r.
Qed.

(** The positions of [k] whole bands: the even bands are every second
    one, starting with the first. *)
Lemma length_even_group_bands (step : Z) (k : nat) :
  1 <= step ->
  Z.of_nat (length (even_group step (k * Z.to_nat step)))
  = (Z.of_nat k + 1) / 2 * step.
Proof.
  intros Hs. induction k as [|k IH]; [reflexivity|].
  replace (S k * Z.to_nat step)%nat
    with (k * Z.to_nat step + Z.to_nat step)%nat by lia.
  unfold even_group in *. rewrite seq_app, filter_app, length_app.
  cbn [Nat.add]. rewrite Nat2Z.inj_add, IH.
  assert (B : forall i, In i (seq (k * Z.to_nat step) (Z.to_nat step)) ->
                        even_band step i = Z.even (Z.of_nat k)).
  { intros i Hi. apply in_seq in Hi. unfold even_band.
    rewrite (band_index step k i) by nia.
    rewrite Zeven_mod. reflexivity. }
  destruct (Z.even (Z.of_nat k)) eqn:Ek.
  - rewrite filter_all by exact B. rewrite length_seq.
    apply Z.even_spec in Ek. destruct Ek as [q Eq].
    replace (Z.of_nat (S k)) with (Z.of_nat k + 1) by lia.
    rewrite Eq.
    replace ((2 * q + 1) / 2) with q by (Z.div_mod_to_equations; lia).
    replace ((2 * q + 1 + 1) / 2) with (q + 1)
      by (Z.div_mod_to_equations; lia).
    lia.
  - rewrite filter_none by exact B. cbn [length].
    assert (Ok' : Z.odd (Z.of_nat k) = true)
      by (rewrite <- Z.negb_even, Ek; reflexivity).
    apply Z.odd_spec in Ok'. destruct Ok' as [q Eq].
    replace (Z.of_nat (S k)) with (Z.of_nat k + 1) by lia.
    rewrite Eq.
    replace ((2 * q + 1 + 1) / 2) with (q + 1)
      by (Z.div_mod_to_equations; lia).
    replace ((2 * q + 1 + 1 + 1) / 2) with (q + 1)
      by (Z.div_mod_to_equations; lia).
    lia.
Qed.

Section OrderMore.
Context {A : Type}.
Implicit Types (a b image : ndarray A).

(** X6. Cutting along the columns and then along the rows gives the same
    image as cutting along the rows and then along the columns, for every
    step but 0. *)
Theorem cut_image_axes_commute (step : Z) a :
  step <> 0 -> wf a ->
  exists vertical horizontal out,
    cut_image step a COLUMNS = Ok vertical /\
    cut_image step (np_array vertical) ROWS = Ok out /\
    cut_image step a ROWS = Ok horizontal /\
    cut_image step (np_array horizontal) COLUMNS = Ok out.
Proof.
  intros Hs Hwf.
  destruct (cut_image_nonzero step COLUMNS a Hs Hwf)
    as (al & E & Wal & Sal & Cv).
  destruct (cut_image_nonzero step ROWS a Hs Hwf)
    as (al' & E' & _ & _ & Ch).
  rewrite E in E'. injection E' as <-.
  destruct (select_along_stable step COLUMNS al Wal Sal) as [Wv Sv].
  destruct (select_along_stable step ROWS al Wal Sal) as [Wh Sh].
  eexists _, _, _. split; [exact Cv|]. cbn [np_array].
  split; [apply cut_image_stable; assumption|].
  split; [exact Ch|]. cbn [np_array].
  rewrite (cut_image_stable step COLUMNS _ Wh Sh). do 2 f_equal.
  change (extent ROWS (select_along COLUMNS
                         (interleave_order step (extent COLUMNS al)) al))
    with (nrows (select_along COLUMNS
                   (interleave_order step (extent COLUMNS al)) al)).
  rewrite nrows_select_along.
  cbn [extent select_along ncols rows trailing]. f_equal.
  symmetry. apply gather_map.
Qed.

(** X7. A buffer with fewer than three bands along the axis is only
    aligned: with no band, one band or two, the even bands are in front
    already and [cut_image] returns the aligned buffer. *)
Theorem cut_image_at_most_two_bands (step : Z) (ax : axis) a :
  1 <= step -> wf a -> Z.of_nat (extent ax a) < 3 * step ->
  exists al,
    adjust_image_size step a = Ok al /\
    cut_image step a ax = Ok (fromarray al).
Proof.
  intros Hs Hwf Hn.
  destruct (cut_image_nonzero step ax a ltac:(lia) Hwf)
    as (al & E & Wal & _ & C).
  exists al. split; [exact E|]. rewrite C. do 2 f_equal.
  rewrite interleave_order_two_bands; [now apply select_along_all| exact Hs|].
  rewrite adjust_image_size_eq in E by lia. injection E as <-.
  rewrite extent_adjust by exact Hs.
  assert (Z.of_nat (extent ax a) / step < 3)
    by (apply Z.div_lt_upper_bound; lia).
  nia.
Qed.

(** X8. In the output of [cut_image] the even bands take the first
    [ceil(k / 2) * step] positions along the axis and the odd bands the
    other [floor(k / 2) * step], for the [k] bands of the aligned buffer:
    the two parts are halves only when [k] is even. *)
Theorem cut_image_group_sizes (step : Z) (ax : axis) a :
  1 <= step -> wf a ->
  exists al,
    adjust_image_size step a = Ok al /\
    let k := Z.of_nat (extent ax a) / step in
    let n := extent ax al in
    Z.of_nat n = k * step /\
    Z.of_nat (count_true (band_mask step n)) = (k + 1) / 2 * step /\
    Z.of_nat (count_true (map negb (band_mask step n))) = k / 2 * step /\
    Z.of_nat (length (even_group step n)) = (k + 1) / 2 * step /\
    Z.of_nat (length (odd_group step n)) = k / 2 * step.
Proof.
  intros Hs Hwf.
  pose proof (adjust_image_size_eq step a ltac:(lia)) as E.
  eexists. split; [exact E|]. cbn zeta.
  rewrite extent_adjust by exact Hs.
  set (k := Z.of_nat (extent ax a) / step).
  set (n := extent ax _).
  assert (Hk : 0 <= k) by (apply Z.div_pos; lia).
  assert (Hn : n = (Z.to_nat k * Z.to_nat step)%nat).
  { apply Nat2Z.inj. unfold n. rewrite extent_adjust by exact Hs.
    fold k. nia. }
  assert (Ev : Z.of_nat (length (even_group step n)) = (k + 1) / 2 * step).
  { rewrite Hn, length_even_group_bands by exact Hs.
    now rewrite Z2Nat.id by exact Hk. }
  assert (Od : Z.of_nat (length (odd_group step n)) = k / 2 * step).
  { pose proof (filter_length (even_band step) (seq 0 n)) as L.
    rewrite length_seq in L. fold (even_group step n) in L.
    fold (odd_group step n) in L.
    assert (Z.of_nat n = k * step) by (rewrite Hn; nia).
    assert ((k + 1) / 2 + k / 2 = k) by (Z.div_mod_to_equations; lia).
    nia. }
  split; [reflexivity|].
  rewrite band_mask_even_band, map_map, !count_true_map.
  auto.
Qed.

End OrderMore.

(** ** The exceptions of [validate_config] *)

Lemma exn_class_eqb_eq (c d : exn_class) : exn_class_eqb c d = true <-> c = d.
Proof. destruct c, d; cbn; split; congruence. Qed.

Lemma raises_in_Ok {T : Type} (cs : list exn_class) (t : T) :
  raises_in cs (Ok t).
Proof. intros e [=]. Qed.

Lemma raises_in_raise {T : Type} (cs : list exn_class) (c : exn_class) :
  In c cs -> raises_in cs (raise c : result exn T).
Proof. intros H e [= <-]. exact H. Qed.

Lemma raises_in_incl {T : Type} (cs cs' : list exn_class) (m : result exn T) :
  incl cs cs' -> raises_in cs m -> raises_in cs' m.
Proof. intros I H e He. apply I, H, He. Qed.

Lemma raises_in_bind {T U : Type} (cs : list exn_class) (m : result exn T)
      (k : T -> result exn U) :
  raises_in cs m -> (forall t, raises_in cs (k t)) -> raises_in cs (bind m k).
Proof.
  intros Hm Hk e. destruct m as [t|e']; cbn [bind].
  - apply Hk.
  - intros [= <-]. now apply Hm.
Qed.

(** [try ... except c] takes [c] out of the classes that get through and
    puts the handler's in. *)
Lemma raises_in_try_except {T : Type} (cs cs' : list exn_class)
      (m : result exn T) (c : exn_class) (h : exn -> result exn T) :
  raises_in cs m ->
  (forall e, raises_in cs' (h e)) ->
  (forall c0, In c0 cs -> c0 <> c -> In c0 cs') ->
  raises_in cs' (try_except m (isinstance c) h).
Proof.
  intros Hm Hh Hcs e. destruct m as [t|e0]; cbn [try_except]; [intros [=]|].
  unfold isinstance. destruct (exn_class_eqb (class e0) c) eqn:Ec.
  - apply Hh.
  - intros [= <-]. apply Hcs; [now apply Hm|].
    intros C. apply exn_class_eqb_eq in C. congruence.
Qed.

Lemma raises_in_getitem (obj : value) (key : string) :
  raises_in [KeyError; TypeError] (getitem obj key).
Proof.
  destruct obj; cbn [getitem]; try (apply raises_in_raise; cbn; tauto).
  destruct (dict_get d key);
    [apply raises_in_Ok | apply raises_in_raise; cbn; tauto].
Qed.

Lemma raises_in_int (x : value) :
  raises_in [ValueError; TypeError; OverflowError] (int x).
Proof.
  destruct x as [| | |f|s| |]; cbn [int];
    try (apply raises_in_raise; cbn; tauto); try apply raises_in_Ok.
  - destruct f; cbn [int_of_float];
      try (apply raises_in_raise; cbn; tauto); apply raises_in_Ok.
  - destruct (int_of_str s);
      [apply raises_in_Ok | apply raises_in_raise; cbn; tauto].
Qed.

Lemma raises_in_float_of_int (n : Z) :
  raises_in [OverflowError] (float_of_int n).
Proof.
  unfold float_of_int.
  destruct (binary_normalize prec emax n 0 false);
    try apply raises_in_Ok; apply raises_in_raise; cbn; tauto.
Qed.

(** What [getitem] raises is one of two exceptions. *)
Lemma getitem_Raise (obj : value) (key : string) (e : exn) :
  getitem obj key = Raise e -> e = Exn KeyError by_library \/
                               e = Exn TypeError by_library.
Proof.
  destruct obj; cbn [getitem]; try (intros [= <-]; now right).
  destruct (dict_get d key); [discriminate | intros [= <-]; now left].
Qed.

Section ValidateMore.
Context {A : Type}.
Variable image_files : string -> entry A.
Variable config_files : string -> option value.

Lemma raises_in_Image_open (fp : value) :
  raises_in validate_classes (Image_open image_files fp).
Proof.
  unfold validate_classes.
  destruct fp as [| | | |path| |]; cbn [Image_open];
    try (apply raises_in_raise; cbn; tauto).
  destruct (image_files path) as [a|r]; [apply raises_in_Ok|].
  destruct (has_nul path); [|destruct r];
    apply raises_in_raise; cbn; tauto.
Qed.

End ValidateMore.

Section ValidateStages.
Context {A : Type}.
Variable image_files : string -> entry A.

(** [validate_config] once both keys are found. *)
Lemma validate_config_found (config numpy_basics image_path step_str : value) :
  getitem config "numpy_basics" = Ok numpy_basics ->
  getitem numpy_basics "image_path" = Ok image_path ->
  getitem numpy_basics "step" = Ok step_str ->
  validate_config image_files config
  = (step <-
       try_except (int step_str)
         (isinstance ValueError)
         (fun _ => Raise (Exn ValueError (step_not_an_integer step_str))) ;;
     max_step_value <- bound_of image_files image_path ;;
     if (step <? 1) || (step >? max_step_value)
     then Raise (Exn ValueError (step_not_in_range max_step_value step))
     else Ok (image_path, step)).
Proof.
  intros H1 H2 H3. unfold validate_config.
  rewrite H1. cbn [bind]. rewrite H2. cbn [bind]. rewrite H3.
  reflexivity.
Qed.

(** [validate_config] when a look-up fails. *)
Lemma validate_config_not_found (config : value) (e : exn) :
  getitem config "numpy_basics" = Raise e \/
  (exists numpy_basics,
      getitem config "numpy_basics" = Ok numpy_basics /\
      (getitem numpy_basics "image_path" = Raise e \/
       (exists image_path,
           getitem numpy_basics "image_path" = Ok image_path) /\
       getitem numpy_basics "step" = Raise e)) ->
  validate_config image_files config
  = if isinstance KeyError e then Raise (Exn ValueError keys_missing)
    else Raise e.
Proof.
  unfold validate_config.
  intros [H1|(nb & H1 & [H2|[(ip & H2) H3]])];
    rewrite H1; cbn [bind try_except]; rewrite ?H2; cbn [bind try_except];
    rewrite ?H1; cbn [bind try_except]; rewrite ?H3; cbn [bind try_except];
    now destruct (isinstance KeyError e).
Qed.

(** How the third step ends when it raises: with the image's
    FileNotFoundError for a path that names no file, and with a library's
    exception else. *)
Lemma bound_of_Raise (image_path : value) (e : exn) :
  bound_of image_files image_path = Raise e ->
  (e = Exn FileNotFoundError (image_file_not_found image_path) /\
   exists path, image_path = VStr path /\
                image_files path = no_image no_such_file /\
                has_nul path = false) \/
  (text e = by_library /\ class e <> FileNotFoundError /\
   In (class e) validate_classes).
Proof.
  unfold bound_of, Image_open, validate_classes.
  destruct image_path as [| | | |path| |];
    try (cbn; intros [= <-]; right; cbn; intuition discriminate).
  destruct (image_files path) as [a|r] eqn:Hfile.
  - cbn [bind size np_array].
    match goal with
    | |- try_except ?m _ _ = _ -> _ =>
        assert (L : library_raise m);
        [|assert (R : raises_in [ValueError; TypeError; OverflowError] m);
          [|destruct m as [b|e0]]]
    end.
    + apply library_raise_bind; [apply library_raise_float_of_int|].
      intros x. apply library_raise_int.
    + apply raises_in_bind.
      * eapply raises_in_incl; [|apply raises_in_float_of_int].
        intros c [<-|[]]. cbn. tauto.
      * intros x. apply raises_in_int.
    + discriminate.
    + cbn [try_except]. specialize (L e0 eq_refl). specialize (R e0 eq_refl).
      destruct (isinstance FileNotFoundError e0) eqn:Hi.
      * unfold isinstance in Hi. apply exn_class_eqb_eq in Hi.
        rewrite Hi in R. cbn in R. intuition discriminate.
      * intros [= <-]. right. split; [exact L|].
        destruct e0 as [c t]. cbn in *.
        destruct R as [<-|[<-|[<-|[]]]]; intuition discriminate.
  - destruct (has_nul path) eqn:Hnul.
    + cbn. intros [= <-]. right. cbn. intuition discriminate.
    + destruct r; cbn; intros [= <-];
        try (right; cbn; intuition discriminate).
      left. split; [reflexivity|]. now exists path.
Qed.

(** How [validate_config] ends when it raises after both keys are found. *)
Lemma validate_config_found_Raise
      (config numpy_basics image_path step_str : value) (e : exn) :
  getitem config "numpy_basics" = Ok numpy_basics ->
  getitem numpy_basics "image_path" = Ok image_path ->
  getitem numpy_basics "step" = Ok step_str ->
  validate_config image_files config = Raise e ->
  (e = Exn ValueError (step_not_an_integer step_str) /\
   int step_str = raise ValueError) \/
  (text e = by_library /\ In (class e) [TypeError; OverflowError] /\
   int step_str = Raise e) \/
  (exists step, int step_str = Ok step /\
     (bound_of image_files image_path = Raise e \/
      exists bound, bound_of image_files image_path = Ok bound /\
                    (step < 1 \/ step > bound) /\
                    e = Exn ValueError (step_not_in_range bound step))).
Proof.
  intros H1 H2 H3. rewrite (validate_config_found _ _ _ _ H1 H2 H3).
  destruct (int step_str) as [step|e0] eqn:Hint.
  - cbn [try_except bind]. intros H. right. right. exists step.
    split; [reflexivity|].
    destruct (bound_of image_files image_path) as [bound|e1];
      cbn [bind] in H.
    + right. exists bound. split; [reflexivity|].
      destruct ((step <? 1) || (step >? bound)) eqn:Hr; [|discriminate H].
      injection H as <-. split; [|reflexivity].
      apply orb_true_iff in Hr. destruct Hr as [Hr|Hr]; [left|right]; lia.
    + left. congruence.
  - pose proof (library_raise_int step_str e0 Hint) as L.
    pose proof (raises_in_int step_str e0 Hint) as R.
    cbn [try_except bind].
    destruct (isinstance ValueError e0) eqn:Hi; cbn [bind]; intros [= <-].
    + left. split; [reflexivity|].
      unfold isinstance in Hi. apply exn_class_eqb_eq in Hi.
      destruct e0 as [c t]. cbn in *. subst. reflexivity.
    + right. left. split; [exact L|]. split; [|reflexivity].
      destruct e0 as [c t]. cbn in *.
      destruct R as [<-|[<-|[<-|[]]]]; cbn in Hi; try discriminate; tauto.
Qed.

(** What [validate_config] accepted. *)
Lemma validate_config_Ok_inv (config image_path : value) (step : Z) :
  validate_config image_files config = Ok (image_path, step) ->
  exists numpy_basics step_str path a bound,
    getitem config "numpy_basics" = Ok numpy_basics /\
    getitem numpy_basics "image_path" = Ok (VStr path) /\
    getitem numpy_basics "step" = Ok step_str /\
    int step_str = Ok step /\
    image_path = VStr path /\
    image_files path = an_image a /\
    bound_of image_files (VStr path) = Ok bound /\
    1 <= step <= bound.
Proof.
  intros H.
  destruct (getitem config "numpy_basics") as [nb|e] eqn:H1.
  2:{ rewrite (validate_config_not_found config e) in H by now left.
      destruct (isinstance KeyError e); discriminate H. }
  destruct (getitem nb "image_path") as [ip|e] eqn:H2.
  2:{ rewrite (validate_config_not_found config e) in H
        by (right; exists nb; split; [assumption | now left]).
      destruct (isinstance KeyError e); discriminate H. }
  destruct (getitem nb "step") as [ss|e] eqn:H3.
  2:{ rewrite (validate_config_not_found config e) in H
        by (right; exists nb; split; [assumption|]; right;
            split; [now exists ip | assumption]).
      destruct (isinstance KeyError e); discriminate H. }
  rewrite (validate_config_found _ _ _ _ H1 H2 H3) in H.
  destruct (int ss) as [st|e] eqn:Hint; cbn [try_except bind] in H.
  2:{ destruct (isinstance ValueError e); discriminate H. }
  destruct (bound_of image_files ip) as [bound|e] eqn:Hb; cbn [bind] in H;
    [|discriminate H].
  destruct ((st <? 1) || (st >? bound)) eqn:Hr; [discriminate H|].
  injection H as <- <-. apply orb_false_iff in Hr.
  assert (exists path a, ip = VStr path /\ image_files path = an_image a)
    as (path & a & -> & Hfile).
  { unfold bound_of, Image_open in Hb.
    destruct ip as [| | | |path| |]; try discriminate Hb.
    destruct (image_files path) as [a|r] eqn:Hf; [now exists path, a|].
    destruct (has_nul path); [discriminate Hb|].
    destruct r; discriminate Hb. }
  exists nb, ss, path, a, bound. repeat (split; [assumption || reflexivity|]).
  lia.
Qed.

Lemma bound_of_image (path : string) (a : ndarray A) :
  image_files path = an_image a ->
  Z.of_nat (ncols a) < 2 ^ 31 -> Z.of_nat (nrows a) < 2 ^ 31 ->
  bound_of image_files (VStr path)
  = Ok (Z.max (Z.of_nat (ncols a)) (Z.of_nat (nrows a)) / 50).
Proof.
  intros Hfile Hw Hh. unfold bound_of, Image_open. rewrite Hfile.
  cbn [bind size np_array]. now rewrite int_mul_0_02 by lia.
Qed.

End ValidateStages.

Lemma bound_of_size_only {A B : Type}
      (files1 : string -> entry A)
      (files2 : string -> entry B) (image_path : value) :
  (forall path,
      entry_map (fun a => (nrows a, ncols a)) (files1 path)
      = entry_map (fun b => (nrows b, ncols b)) (files2 path)) ->
  bound_of files1 image_path = bound_of files2 image_path.
Proof.
  intros H. unfold bound_of, Image_open.
  destruct image_path as [| | | |path| |]; try reflexivity.
  specialize (H path).
  destruct (files1 path) as [a|r], (files2 path) as [b|r'];
    try discriminate H; cbn [entry_map] in H.
  - injection H as Hr Hc.
    cbn [bind size np_array]. now rewrite Hr, Hc.
  - injection H as <-. destruct (has_nul path); reflexivity.
Qed.

(** X12. [validate_config] uses the image for its height and width only:
    with image files of the same sizes under the same paths (and the same
    reasons where there is no image), whatever their pixels and channels,
    it returns or raises the same. *)
Theorem validate_config_size_only {A B : Type}
        (files1 : string -> entry A)
        (files2 : string -> entry B) (config : value) :
  (forall path,
      entry_map (fun a => (nrows a, ncols a)) (files1 path)
      = entry_map (fun b => (nrows b, ncols b)) (files2 path)) ->
  validate_config files1 config = validate_config files2 config.
Proof.
  intros H.
  destruct (getitem config "numpy_basics") as [nb|e] eqn:H1.
  2:{ now rewrite !(validate_config_not_found _ config e) by now left. }
  destruct (getitem nb "image_path") as [ip|e] eqn:H2.
  2:{ now rewrite !(validate_config_not_found _ config e)
        by (right; exists nb; split; [assumption | now left]). }
  destruct (getitem nb "step") as [ss|e] eqn:H3.
  2:{ now rewrite !(validate_config_not_found _ config e)
        by (right; exists nb; split; [assumption|]; right;
            split; [now exists ip | assumption]). }
  rewrite !(validate_config_found _ _ _ _ _ H1 H2 H3).
  now rewrite (bound_of_size_only files1 files2 ip H).
Qed.

Section ValidateMore.
Context {A : Type}.
Variable image_files : string -> entry A.
Variable config_files : string -> option value.

(** X9. [validate_config] raises the missing-key ValueError exactly when a
    look-up ends with a KeyError: the configuration is a mapping without
    [numpy_basics], or [numpy_basics] is a mapping without [image_path] or
    without [step]. The image files play no part. *)
Theorem validate_config_keys_missing_iff (config : value) :
  validate_config image_files config = Raise (Exn ValueError keys_missing)
  <->
  getitem config "numpy_basics" = raise KeyError \/
  exists numpy_basics,
    getitem config "numpy_basics" = Ok numpy_basics /\
    (getitem numpy_basics "image_path" = raise KeyError \/
     getitem numpy_basics "step" = raise KeyError).
Proof.
  split.
  - intros H.
    destruct (getitem config "numpy_basics") as [nb|e] eqn:H1.
    2:{ rewrite (validate_config_not_found _ config e) in H by now left.
        destruct (getitem_Raise _ _ _ H1) as [->| ->];
          [now left | discriminate H]. }
    right. exists nb. split; [reflexivity|].
    destruct (getitem nb "image_path") as [ip|e] eqn:H2.
    2:{ rewrite (validate_config_not_found _ config e) in H
          by (right; exists nb; split; [assumption | now left]).
        destruct (getitem_Raise _ _ _ H2) as [->| ->];
          [now left | discriminate H]. }
    destruct (getitem nb "step") as [ss|e] eqn:H3.
    2:{ rewrite (validate_config_not_found _ config e) in H
          by (right; exists nb; split; [assumption|]; right;
              split; [now exists ip | assumption]).
        destruct (getitem_Raise _ _ _ H3) as [->| ->];
          [now right | discriminate H]. }
    exfalso.
    destruct (validate_config_found_Raise _ _ _ _ _ _ H1 H2 H3 H)
      as [[E _]|[(T & _)|(st & _ & [Hb|(b & _ & _ & E)])]];
      try discriminate.
    destruct (bound_of_Raise _ _ _ Hb) as [[E _]|[T _]]; discriminate.
  - intros [H1|(nb & H1 & [H2|H3])].
    + now rewrite (validate_config_not_found _ config _ (or_introl H1)).
    + rewrite (validate_config_not_found _ config (Exn KeyError by_library));
        [reflexivity|].
      right. exists nb. split; [assumption | now left].
    + destruct (getitem nb "image_path") as [ip|e] eqn:H2.
      * rewrite (validate_config_not_found _ config
                   (Exn KeyError by_library)); [reflexivity|].
        right. exists nb. split; [assumption|]. right.
        split; [now exists ip | assumption].
      * destruct nb; try discriminate H3.
        destruct (getitem_Raise _ _ _ H2) as [->| ->].
        -- rewrite (validate_config_not_found _ config
                      (Exn KeyError by_library)); [reflexivity|].
           right. eexists. split; [eassumption | now left].
        -- cbn [getitem] in H2. destruct (dict_get d "image_path");
             discriminate H2.
Qed.

(** X10. [validate_config] raises the not-an-integer ValueError, with the
    step's own value in it, exactly when both keys are found and [int]
    refuses the step with a ValueError; whether the image is there is not
    looked at. *)
Theorem validate_config_step_not_an_integer_iff (config s : value) :
  validate_config image_files config
  = Raise (Exn ValueError (step_not_an_integer s))
  <->
  exists numpy_basics image_path,
    getitem config "numpy_basics" = Ok numpy_basics /\
    getitem numpy_basics "image_path" = Ok image_path /\
    getitem numpy_basics "step" = Ok s /\
    int s = raise ValueError.
Proof.
  split.
  - intros H.
    destruct (getitem config "numpy_basics") as [nb|e] eqn:H1.
    2:{ rewrite (validate_config_not_found _ config e) in H by now left.
        destruct (getitem_Raise _ _ _ H1) as [->| ->]; discriminate H. }
    destruct (getitem nb "image_path") as [ip|e] eqn:H2.
    2:{ rewrite (validate_config_not_found _ config e) in H
          by (right; exists nb; split; [assumption | now left]).
        destruct (getitem_Raise _ _ _ H2) as [->| ->]; discriminate H. }
    destruct (getitem nb "step") as [ss|e] eqn:H3.
    2:{ rewrite (validate_config_not_found _ config e) in H
          by (right; exists nb; split; [assumption|]; right;
              split; [now exists ip | assumption]).
        destruct (getitem_Raise _ _ _ H3) as [->| ->]; discriminate H. }
    destruct (validate_config_found_Raise _ _ _ _ _ _ H1 H2 H3 H)
      as [[E Hint]|[(T & _)|(st & _ & [Hb|(b & _ & _ & E)])]];
      try discriminate.
    + injection E as <-. now exists nb, ip.
    + destruct (bound_of_Raise _ _ _ Hb) as [[E _]|[T _]]; discriminate.
  - intros (nb & ip & H1 & H2 & H3 & Hint).
    rewrite (validate_config_found _ _ _ _ _ H1 H2 H3), Hint. reflexivity.
Qed.

(** X11. What [validate_config] returns is a path that names an image file
    and a step of at least 1; for an image PIL can hold (sides below 2^31)
    fifty steps fit in the larger side, which is then at least 50 pixels
    long. *)
Theorem validate_config_accepted (config image_path : value) (step : Z) :
  validate_config image_files config = Ok (image_path, step) ->
  exists path a,
    image_path = VStr path /\ image_files path = an_image a /\
    Ok image_path = (numpy_basics <- getitem config "numpy_basics" ;;
                     getitem numpy_basics "image_path") /\
    1 <= step /\
    (Z.of_nat (ncols a) < 2 ^ 31 -> Z.of_nat (nrows a) < 2 ^ 31 ->
     50 * step <= Z.max (Z.of_nat (ncols a)) (Z.of_nat (nrows a)) /\
     step <= max_step (Z.of_nat (ncols a)) (Z.of_nat (nrows a))).
Proof.
  intros H.
  destruct (validate_config_Ok_inv _ _ _ _ H)
    as (nb & ss & path & a & bound & H1 & H2 & _ & _ & -> & Hfile & Hb & Hs).
  exists path, a. split; [reflexivity|]. split; [exact Hfile|].
  split; [rewrite H1; cbn [bind]; now rewrite H2|].
  split; [lia|]. intros Hw Hh.
  rewrite (bound_of_image _ path a Hfile Hw Hh) in Hb. injection Hb as <-.
  rewrite max_step_div.
  pose proof (Z.mul_div_le (Z.max (Z.of_nat (ncols a)) (Z.of_nat (nrows a)))
                50 ltac:(lia)).
  split; [nia | lia].
Qed.

End ValidateMore.

(** ** [main] *)

Section MainFacts.
Context {A : Type}.
Variable image_files : string -> entry A.
Variable config_files : string -> option value.

(** The texts [validate_config] and [process_image] raise with: never the
    configuration file's. *)
Lemma validate_config_text (config : value) (e : exn) :
  validate_config image_files config = Raise e ->
  forall config_path, text e <> config_file_not_found config_path.
Proof.
  intros H p.
  destruct (getitem config "numpy_basics") as [nb|e0] eqn:H1.
  2:{ rewrite (validate_config_not_found _ config e0) in H by now left.
      destruct (getitem_Raise _ _ _ H1) as [->| ->]; cbn in H;
        injection H as <-; discriminate. }
  destruct (getitem nb "image_path") as [ip|e0] eqn:H2.
  2:{ rewrite (validate_config_not_found _ config e0) in H
        by (right; exists nb; split; [assumption | now left]).
      destruct (getitem_Raise _ _ _ H2) as [->| ->]; cbn in H;
        injection H as <-; discriminate. }
  destruct (getitem nb "step") as [ss|e0] eqn:H3.
  2:{ rewrite (validate_config_not_found _ config e0) in H
        by (right; exists nb; split; [assumption|]; right;
            split; [now exists ip | assumption]).
      destruct (getitem_Raise _ _ _ H3) as [->| ->]; cbn in H;
        injection H as <-; discriminate. }
  destruct (validate_config_found_Raise _ _ _ _ _ _ H1 H2 H3 H)
    as [[-> _]|[(T & _)|(st & _ & [Hb|(b & _ & _ & ->)])]];
    try (cbn; discriminate); try (rewrite T; discriminate).
  destruct (bound_of_Raise _ _ _ Hb) as [[-> _]|[T _]];
    [cbn; discriminate | rewrite T; discriminate].
Qed.

Lemma process_image_text (step : Z) (image_path : value) (e : exn) :
  process_image image_files step image_path = Raise e ->
  text e = by_library \/ text e = image_file_not_found image_path.
Proof.
  unfold process_image.
  pose proof (library_raise_Image_open image_files image_path) as LI.
  destruct (Image_open image_files image_path) as [image|e0];
    cbn [try_except].
  - clear LI. cbn [bind]. intros H. left. revert e H.
    change (library_raise
              (image_np <- adjust_image_size step (np_array image) ;;
               vertical_image <- cut_image step image_np COLUMNS ;;
               horizontal_image <-
                 cut_image step (np_array vertical_image) ROWS ;;
               all_images <-
                 concatenate [np_array (fromarray image_np);
                              np_array vertical_image;
                              np_array horizontal_image] ROWS ;;
               Ok (fromarray all_images))).
    apply library_raise_bind; [apply library_raise_adjust|]. intros base.
    apply library_raise_bind; [apply library_raise_cut_image|]. intros v.
    apply library_raise_bind; [apply library_raise_cut_image|]. intros h.
    apply library_raise_bind; [apply library_raise_concatenate|].
    intros c. apply library_raise_Ok.
  - destruct (isinstance FileNotFoundError e0); cbn [bind]; intros [= <-].
    + now right.
    + left. now apply LI.
Qed.

(** The classes [validate_config] raises. *)
Lemma raises_in_validate_config (config : value) :
  raises_in validate_classes (validate_config image_files config).
Proof.
  intros e H. unfold validate_classes.
  destruct (getitem config "numpy_basics") as [nb|e0] eqn:H1.
  2:{ rewrite (validate_config_not_found _ config e0) in H by now left.
      destruct (getitem_Raise _ _ _ H1) as [->| ->]; cbn in H;
        injection H as <-; cbn; tauto. }
  destruct (getitem nb "image_path") as [ip|e0] eqn:H2.
  2:{ rewrite (validate_config_not_found _ config e0) in H
        by (right; exists nb; split; [assumption | now left]).
      destruct (getitem_Raise _ _ _ H2) as [->| ->]; cbn in H;
        injection H as <-; cbn; tauto. }
  destruct (getitem nb "step") as [ss|e0] eqn:H3.
  2:{ rewrite (validate_config_not_found _ config e0) in H
        by (right; exists nb; split; [assumption|]; right;
            split; [now exists ip | assumption]).
      destruct (getitem_Raise _ _ _ H3) as [->| ->]; cbn in H;
        injection H as <-; cbn; tauto. }
  destruct (validate_config_found_Raise _ _ _ _ _ _ H1 H2 H3 H)
    as [[-> _]|[(_ & C & _)|(st & _ & [Hb|(b & _ & _ & ->)])]];
    try (cbn; tauto).
  - cbn in C. cbn. tauto.
  - destruct (bound_of_Raise _ _ _ Hb) as [[-> _]|[_ C]]; cbn in *; tauto.
Qed.

(** [show] refuses an image without a pixel and no other. *)
Lemma show_Raise (image : Image A) (e : exn) :
  show image = Raise e -> e = Exn ValueError by_library.
Proof.
  unfold show. destruct (size image) as [width height].
  destruct ((width =? 0) || (height =? 0)); [intros [= <-] | intros [=]].
  reflexivity.
Qed.


(** [main] once its configuration is read. *)
Lemma main_loaded (config : value) :
  config_files "config.yaml"%string = Some config ->
  main image_files config_files
  = match
      ' (image_path, step) <- validate_config image_files config ;;
      all_images <- process_image image_files step image_path ;;
      _ <- show all_images ;;
      Ok all_images
    with
    | Ok all_images => shown all_images
    | Raise e =>
        if isinstance FileNotFoundError e || isinstance ValueError e
        then printed e
        else uncaught e
    end.
Proof. intros H. unfold main, load_config. now rewrite H. Qed.


(** X14. [main] prints the configuration file's FileNotFoundError exactly
    when there is no [config.yaml]: whatever image files there are, and no
    later step ends with that message. *)
Theorem main_config_not_found_iff (config_path : string) :
  main image_files config_files
  = printed (Exn FileNotFoundError (config_file_not_found config_path))
  <-> config_files "config.yaml"%string = None /\
      config_path = "config.yaml"%string.
Proof.
  split.
  - destruct (config_files "config.yaml"%string) as [config|] eqn:Hc.
    + rewrite (main_loaded config Hc). intros H. exfalso.
      destruct (validate_config image_files config) as [[ip st]|e] eqn:Hv;
        cbn [bind] in H.
      * destruct (process_image image_files st ip) as [out|e] eqn:Hp;
          cbn [bind] in H.
        -- destruct (show out) as [[]|e] eqn:Hshow; cbn [bind] in H;
             [discriminate H|].
           rewrite (show_Raise _ _ Hshow) in H. discriminate H.
        -- destruct (isinstance FileNotFoundError e
                     || isinstance ValueError e); [|discriminate H].
           injection H as ->.
           destruct (process_image_text _ _ _ Hp) as [T|T]; discriminate T.
      * destruct (isinstance FileNotFoundError e || isinstance ValueError e);
          [|discriminate H].
        injection H as ->.
        now apply (validate_config_text config _ Hv config_path).
    + unfold main, load_config. rewrite Hc. cbn. intros [= <-]. now split.
  - intros [Hc ->]. unfold main, load_config. now rewrite Hc.
Qed.

(** X15. On rectangular images [main] never ends with a ZeroDivisionError,
    a KeyError or an IndexError, printed or uncaught: the step that
    reaches the divisions is at least 1, the KeyError of a look-up is
    turned into a ValueError, and the masks have the length of their
    axis. *)
Theorem main_never_division_key_index (e : exn) :
  (forall path a, image_files path = an_image a -> wf a) ->
  main image_files config_files = uncaught e \/
  main image_files config_files = printed e ->
  class e <> ZeroDivisionError /\ class e <> KeyError /\
  class e <> IndexError.
Proof.
  intros Hwf H.
  destruct (config_files "config.yaml"%string) as [config|] eqn:Hc.
  2:{ unfold main, load_config in H. rewrite Hc in H. cbn in H.
      destruct H as [H|H]; [discriminate H|]. injection H as <-.
      cbn. repeat split; discriminate. }
  rewrite (main_loaded config Hc) in H.
  assert (Classes : In (class e) validate_classes ->
                    class e <> ZeroDivisionError /\ class e <> KeyError /\
                    class e <> IndexError).
  { unfold validate_classes. cbn. intuition congruence. }
  destruct (validate_config image_files config) as [[ip st]|e0] eqn:Hv;
    cbn [bind] in H.
  - destruct (validate_config_Ok_inv _ _ _ _ Hv)
      as (nb & ss & path & a & bound & _ & _ & _ & _ & -> & Hfile & _ & Hs).
    destruct (process_image_nonzero image_files st path a
                ltac:(lia) Hfile (Hwf _ _ Hfile)) as (b & c & _ & P & _).
    rewrite P in H. cbn [bind] in H.
    destruct (show (fromarray c)) as [[]|e1] eqn:Hshow; cbn [bind] in H.
    + destruct H as [H|H]; discriminate H.
    + rewrite (show_Raise _ _ Hshow) in H. cbn in H.
      destruct H as [H|H]; [discriminate H|]. injection H as <-.
      cbn. repeat split; discriminate.
  - apply Classes.
    pose proof (raises_in_validate_config config e0 Hv) as R.
    destruct (isinstance FileNotFoundError e0 || isinstance ValueError e0);
      destruct H as [H|H]; try discriminate H; now injection H as <-.
Qed.

End MainFacts.

(** * The further properties at concrete inputs *)


Lemma adjust_image_size_idempotent_witness :
  exists al, adjust_image_size 4 buffer_4x6 = Ok al /\
             adjust_image_size 4 al = Ok al.
Proof.
  apply (adjust_image_size_idempotent 4 buffer_4x6);
    [discriminate | exact wf_buffer_4x6].
Defined.

Lemma adjust_image_size_negative_step_witness :
  adjust_image_size (-4) buffer_4x6 = Ok buffer_4x6.
Proof.
  apply (adjust_image_size_negative_step (-4) buffer_4x6);
    [lia | exact wf_buffer_4x6].
Defined.

Lemma cut_image_fails_iff_zero_step_witness :
  (exists e, cut_image (-2) buffer_4x6 COLUMNS = Raise e) <-> -2 = 0.
Proof.
  apply (cut_image_fails_iff_zero_step (-2) COLUMNS buffer_4x6);
    [lia | exact wf_buffer_4x6].
Defined.

Lemma process_image_fails_iff_zero_step_witness :
  process_image (fun _ => an_image buffer_4x6) 0 (VStr "image.png")
  = raise ZeroDivisionError.
Proof.
  apply (process_image_fails_iff_zero_step
           (fun _ => an_image buffer_4x6) 0 "image.png" buffer_4x6);
    [lia | reflexivity | exact wf_buffer_4x6 | reflexivity].
Defined.

Lemma cut_image_axes_commute_witness :
  exists vertical horizontal out,
    cut_image 1 buffer_4x6 COLUMNS = Ok vertical /\
    cut_image 1 (np_array vertical) ROWS = Ok out /\
    cut_image 1 buffer_4x6 ROWS = Ok horizontal /\
    cut_image 1 (np_array horizontal) COLUMNS = Ok out.
Proof.
  apply (cut_image_axes_commute 1 buffer_4x6);
    [discriminate | exact wf_buffer_4x6].
Defined.

(** The six columns of the 4 x 6 buffer are two bands for step 3. *)
Lemma cut_image_at_most_two_bands_witness :
  exists al,
    adjust_image_size 3 buffer_4x6 = Ok al /\
    cut_image 3 buffer_4x6 COLUMNS = Ok (fromarray al).
Proof.
  apply (cut_image_at_most_two_bands 3 COLUMNS buffer_4x6);
    [lia | exact wf_buffer_4x6 | reflexivity].
Defined.

(** The three rows of the 3 x 3 buffer are three bands for step 1: two
    even ones and an odd one. *)
Lemma cut_image_group_sizes_witness :
  exists al,
    adjust_image_size 1 buffer_3x3 = Ok al /\
    Z.of_nat (count_true (band_mask 1 (extent ROWS al))) = 2 /\
    Z.of_nat (count_true (map negb (band_mask 1 (extent ROWS al)))) = 1.
Proof.
  destruct (cut_image_group_sizes 1 ROWS buffer_3x3)
    as (al & E & _ & Ev & Od & _).
  - lia.
  - exact wf_buffer_3x3.
  - exists al. split; [exact E|]. split; [exact Ev | exact Od].
Defined.

Lemma validate_config_accepted_witness :
  exists path a,
    VStr "image.png" = VStr path /\
    (fun _ : string => an_image buffer_10x1000) path = an_image a /\
    1 <= 20.
Proof.
  destruct (validate_config_accepted
              (fun _ => an_image buffer_10x1000)
              (make_config (VStr "image.png") (VInt 20))
              (VStr "image.png") 20)
    as (path & a & Hp & Hf & _ & Hs & _).
  - vm_compute. reflexivity.
  - exists path, a. repeat split; assumption.
Defined.

(** A greyscale and a colour image of 3 x 3 pixels are validated alike. *)
Lemma validate_config_size_only_witness :
  validate_config (fun _ => an_image buffer_3x3)
                  (make_config (VStr "image.png") (VInt 1))
  = validate_config
      (fun _ => an_image {| ncols := 3; trailing := [3%nat];
                        rows := repeat (repeat [0; 0; 0] 3) 3 |})
      (make_config (VStr "image.png") (VInt 1)).
Proof.
  apply (validate_config_size_only
           (fun _ => an_image buffer_3x3)
           (fun _ => an_image {| ncols := 3; trailing := [3%nat];
                             rows := repeat (repeat [0; 0; 0] 3) 3 |})).
  intros path. reflexivity.
Defined.


(** With a step that is None the TypeError that leaves [main] is none of
    the three. *)
Lemma main_never_division_key_index_witness :
  TypeError <> ZeroDivisionError /\ TypeError <> KeyError /\
  TypeError <> IndexError.
Proof.
  apply (main_never_division_key_index
           (fun _ => an_image buffer_3x3)
           (fun _ => Some (make_config (VStr "image.png") VNone))
           (Exn TypeError by_library)).
  - intros path a [= <-]. exact wf_buffer_3x3.
  - left. reflexivity.
Defined.
